(** * Agent Studio: view-state handlers of [AgentStudio.tsx]

    A shallow embedding of the state held by the [AgentStudio] component
    (nine [useState] cells) and of its event handlers [handleGenerate],
    [handleAdvance], [handleInsightCreate] and [handleToolRun], together
    with the inline [onChange] handlers of the form controls.

    The component imports [craftBlueprint], [createActivity],
    [runToolSimulation] and [searchKnowledge] from the module ["@/lib/agent"];
    the handlers are parametric in them (Section variables below). *)

From Stdlib Require Import ZArith NArith Ascii String DecimalString.
From Stdlib Require Import DecimalPos DecimalZ.
From stdpp Require Import base option list gmap.

(** ** Strings

    A JavaScript string is a sequence of UTF-16 code units. *)

Definition code_unit : Type := N.
Abbreviation jstring := (list N).

(** An ASCII literal of the source as a sequence of code units. *)
Definition lit (s : string) : jstring :=
  map N_of_ascii (list_ascii_of_string s).

(** The quotation mark, which occurs inside one template literal. *)
Definition quote_mark : jstring := [34%N].

(** [WhiteSpace] and [LineTerminator] code points of ECMAScript, the
    characters removed by [String.prototype.trim]. *)
Definition is_white_space (c : code_unit) : bool :=
  ((c =? 9) || (c =? 10) || (c =? 11) || (c =? 12) || (c =? 13) ||
   (c =? 32) || (c =? 160) || (c =? 5760) ||
   ((8192 <=? c) && (c <=? 8202)) ||
   (c =? 8232) || (c =? 8233) || (c =? 8239) || (c =? 8287) ||
   (c =? 12288) || (c =? 65279))%N.

Fixpoint trimStart (s : jstring) : jstring :=
  match s with
  | [] => []
  | c :: s' => if is_white_space c then trimStart s' else s
  end.

Definition trimEnd (s : jstring) : jstring :=
  reverse (trimStart (reverse s)).

(** [s.trim()] *)
Definition trim (s : jstring) : jstring := trimEnd (trimStart s).

(** [`${n}`] for an integral number such as [Date.now()]. *)
Definition number_to_string (z : Z) : jstring :=
  lit (NilZero.string_of_int (Z.to_int z)).

(** [a || b] on strings: the empty string is falsy. *)
Definition or_else (a b : jstring) : jstring :=
  match a with [] => b | _ => a end.

(** ** Arrays *)

Fixpoint findIndex_from {A} (p : A → bool) (l : list A) (i : Z) : Z :=
  match l with
  | [] => (-1)%Z
  | x :: l' => if p x then i else findIndex_from p l' (i + 1)%Z
  end.

(** [l.findIndex(p)]: the first index satisfying [p], or [-1]. *)
Definition findIndex {A} (p : A → bool) (l : list A) : Z :=
  findIndex_from p l 0.

(** [l[i]] for an integral [i]: [undefined] out of range. *)
Definition array_get {A} (l : list A) (i : Z) : option A :=
  if (i <? 0)%Z then None else l !! Z.to_nat i.

(** [l.slice(0, n)] *)
Definition slice0 {A} (n : nat) (l : list A) : list A := take n l.

(** ** Plain objects used as maps

    [PlanState] and [ToolHistory] are plain objects ([{}] and its copies)
    keyed by arbitrary strings. A finite map holds their own properties;
    what a read or an assignment does with a key that is not an own property
    depends on [Object.prototype], from which every such object inherits. *)

(** The property names of [Object.prototype]. *)
Definition objectPrototypeMembers : list string :=
  ["constructor"; "hasOwnProperty"; "isPrototypeOf"; "propertyIsEnumerable";
   "toLocaleString"; "toString"; "valueOf"; "__defineGetter__";
   "__defineSetter__"; "__lookupGetter__"; "__lookupSetter__";
   "__proto__"]%string.

Definition isInherited (key : jstring) : bool :=
  bool_decide (key ∈ lit <$> objectPrototypeMembers).

(** The one accessor among them: assigning to it calls its setter. *)
Definition PROTO : jstring := lit "__proto__".

(** The result of a read [obj[key]]: the own property, else a member
    inherited from [Object.prototype] (a function, or the prototype itself
    for [__proto__]), else [undefined]. *)
Inductive Member (V : Type) :=
| Own (v : V)
| Inherited
| Undefined.

Arguments Own {V} v.
Arguments Inherited {V}.
Arguments Undefined {V}.

Definition getMember {V} (obj : gmap (list N) V) (key : jstring) : Member V :=
  match obj !! key with
  | Some v => Own v
  | None => if isInherited key then Inherited else Undefined
  end.

(** An assignment [obj[key] = v] of a primitive value [v] (here, a string).
    An own property is overwritten; otherwise a new own property is created,
    except for [__proto__], where the inherited setter runs and ignores a
    value that is neither an object nor [null]. *)
Definition assignMember {V} (key : jstring) (v : V) (obj : gmap (list N) V)
    : gmap (list N) V :=
  if bool_decide (key = PROTO)
  then match obj !! key with
       | Some _ => <[key := v]> obj
       | None => obj
       end
  else <[key := v]> obj.

(** An object literal [{ ...obj, [key]: v }]: a computed key always defines
    an own property, [__proto__] included. *)
Definition spreadWith {V} (key : jstring) (v : V) (obj : gmap (list N) V)
    : gmap (list N) V :=
  <[key := v]> obj.

(** ** Data model *)

Inductive MissionTimeframe := Weeks2 | Days30 | Days60 | Days90.
Inductive Intensity := aggressive | balanced | sustainable.

Module MissionConfig.
Record t := mk {
  goal : jstring;
  context : jstring;
  timeframe : MissionTimeframe;
  intensity : Intensity;
  guardrails : jstring;
}.
End MissionConfig.

Module PlanStep.
Record t := mk {
  id : jstring;
  title : jstring;
  duration : jstring;
  narrative : jstring;
  leverage : jstring;
  confidence : Z;
  energy : jstring;
  catalyst : jstring;
  dependencies : list jstring;
}.
End PlanStep.

Module Tool.
Record t := mk {
  id : jstring;
  name : jstring;
  description : jstring;
  scenario : jstring;
}.
End Tool.

Module QuickAction.
Record t := mk {
  id : jstring;
  label : jstring;
  objective : jstring;
  value : jstring;
}.
End QuickAction.

Module Metric.
Record t := mk {
  id : jstring;
  label : jstring;
  target : jstring;
  cadence : jstring;
}.
End Metric.

Module Focus.
Record t := mk {
  id : jstring;
  label : jstring;
  score : Z;
  driver : jstring;
}.
End Focus.

Module AgentBlueprint.
Record t := mk {
  missionTitle : jstring;
  missionSummary : jstring;
  operatingMode : jstring;
  missionArc : jstring;
  cadence : jstring;
  plan : list PlanStep.t;
  tools : list Tool.t;
  quickActions : list QuickAction.t;
  metrics : list Metric.t;
  focusMap : list Focus.t;
}.
End AgentBlueprint.

Module ToolRun.
Record t := mk {
  timestamp : Z;
  headline : jstring;
  insight : jstring;
  signalStrength : Z;
}.
End ToolRun.

Module ActivityLogItem.
Record t := mk {
  id : jstring;
  label : jstring;
  detail : jstring;
  timestamp : Z;
}.
End ActivityLogItem.

Module KnowledgeItem.
Record t := mk {
  id : jstring;
  title : jstring;
  summary : jstring;
  tags : list jstring;
}.
End KnowledgeItem.

Inductive Category := signal | decision | note.

Module Insight.
Record t := mk {
  id : jstring;
  text : jstring;
  category : Category;
  createdAt : Z;
}.
End Insight.

Inductive Status := pending | active | done.

Global Instance Status_eq_dec : EqDecision Status.
Proof. solve_decision. Defined.

(** [type PlanState = Record<string, "pending" | "active" | "done">] *)
Abbreviation PlanState := (gmap (list N) Status).

(** [type ToolHistory = Record<string, ToolRun[]>] *)
Abbreviation ToolHistory := (gmap (list N) (list ToolRun.t)).

Definition INITIAL_CONFIG : MissionConfig.t :=
  {| MissionConfig.goal :=
       lit "Launch an AI-native growth engine that doubles qualified pipeline within 90 days.";
     MissionConfig.context :=
       lit "B2B SaaS scaling to mid-market. Need rapid insights on buyer motion and automation opportunities.";
     MissionConfig.timeframe := Days90;
     MissionConfig.intensity := aggressive;
     MissionConfig.guardrails :=
       lit "Maintain brand trust and legal compliance while moving fast." |}.

(** The state cells of the component. *)
Record State := mkState {
  config : MissionConfig.t;
  blueprint : AgentBlueprint.t;
  planStates : PlanState;
  activity : list ActivityLogItem.t;
  insights : list Insight.t;
  insightDraft : jstring;
  insightCategory : Category;
  knowledgeQuery : jstring;
  toolHistory : ToolHistory;
}.

Definition setConfig (f : MissionConfig.t → MissionConfig.t) (st : State) : State :=
  mkState (f (config st)) (blueprint st) (planStates st) (activity st)
          (insights st) (insightDraft st) (insightCategory st)
          (knowledgeQuery st) (toolHistory st).

Definition setBlueprint (b : AgentBlueprint.t) (st : State) : State :=
  mkState (config st) b (planStates st) (activity st)
          (insights st) (insightDraft st) (insightCategory st)
          (knowledgeQuery st) (toolHistory st).

Definition setPlanStates (f : PlanState → PlanState) (st : State) : State :=
  mkState (config st) (blueprint st) (f (planStates st)) (activity st)
          (insights st) (insightDraft st) (insightCategory st)
          (knowledgeQuery st) (toolHistory st).

Definition setActivity
    (f : list ActivityLogItem.t → list ActivityLogItem.t) (st : State) : State :=
  mkState (config st) (blueprint st) (planStates st) (f (activity st))
          (insights st) (insightDraft st) (insightCategory st)
          (knowledgeQuery st) (toolHistory st).

Definition setInsights (f : list Insight.t → list Insight.t) (st : State) : State :=
  mkState (config st) (blueprint st) (planStates st) (activity st)
          (f (insights st)) (insightDraft st) (insightCategory st)
          (knowledgeQuery st) (toolHistory st).

Definition setInsightDraft (v : jstring) (st : State) : State :=
  mkState (config st) (blueprint st) (planStates st) (activity st)
          (insights st) v (insightCategory st)
          (knowledgeQuery st) (toolHistory st).

Definition setInsightCategory (c : Category) (st : State) : State :=
  mkState (config st) (blueprint st) (planStates st) (activity st)
          (insights st) (insightDraft st) c
          (knowledgeQuery st) (toolHistory st).

Definition setKnowledgeQuery (q : jstring) (st : State) : State :=
  mkState (config st) (blueprint st) (planStates st) (activity st)
          (insights st) (insightDraft st) (insightCategory st)
          q (toolHistory st).

Definition setToolHistory (f : ToolHistory → ToolHistory) (st : State) : State :=
  mkState (config st) (blueprint st) (planStates st) (activity st)
          (insights st) (insightDraft st) (insightCategory st)
          (knowledgeQuery st) (f (toolHistory st)).

(** The [forEach] loop that seeds the plan state, in [useState]'s
    initialiser and in [handleGenerate]:
    [next[step.id] = index === 0 ? "active" : "pending"]. *)
Fixpoint seedPlanStates_from
    (plan : list PlanStep.t) (index : nat) (next : PlanState) : PlanState :=
  match plan with
  | [] => next
  | step :: rest =>
      seedPlanStates_from rest (S index)
        (assignMember (PlanStep.id step)
           (if Nat.eqb index 0 then active else pending) next)
  end.

Definition seedPlanStates (plan : list PlanStep.t) : PlanState :=
  seedPlanStates_from plan 0 ∅.

(** The status a step is rendered with, from
    [planStates[step.id] ?? "pending"] and the two tests [status === "active"]
    and [status === "done"]. An id without an own property reads as
    [undefined], hence "pending", or, when it names a member of
    [Object.prototype], as that member, which is neither "active" nor "done"
    and is rendered like a pending step. *)
Definition statusOf (ps : PlanState) (step : PlanStep.t) : Status :=
  default pending (ps !! PlanStep.id step).

(** ** The component's handlers

    [World] stands for the ambient inputs of a handler run (clock, random
    source) that the imported generators may consult. *)

Section Handlers.

Context {World : Type}.
Variable craftBlueprint : World → MissionConfig.t → AgentBlueprint.t.
Variable createActivity : World → jstring → jstring → ActivityLogItem.t.
Variable runToolSimulation : World → jstring → jstring → ToolRun.t.

(** The state after the first render: [w0] is the world in which the module
    was loaded ([INITIAL_BLUEPRINT]), [w1] the one of the first render. *)
Definition initialState (w0 w1 : World) : State :=
  let INITIAL_BLUEPRINT := craftBlueprint w0 INITIAL_CONFIG in
  {| config := INITIAL_CONFIG;
     blueprint := INITIAL_BLUEPRINT;
     planStates := seedPlanStates (AgentBlueprint.plan INITIAL_BLUEPRINT);
     activity :=
       [createActivity w1 (lit "Agent Primed")
          (lit "Mission seeded with default aggressive growth blueprint.")];
     insights := [];
     insightDraft := [];
     insightCategory := signal;
     knowledgeQuery := [];
     toolHistory := ∅ |}.

(** [blueprint.plan.find((step) => planStates[step.id] === "active")] *)
Definition activeStep (st : State) : option PlanStep.t :=
  find (λ step, bool_decide (planStates st !! PlanStep.id step = Some active))
       (AgentBlueprint.plan (blueprint st)).

Definition handleGenerate (w : World) (st : State) : State :=
  let nextBlueprint := craftBlueprint w (config st) in
  let st1 := setBlueprint nextBlueprint st in
  let nextStates := seedPlanStates (AgentBlueprint.plan nextBlueprint) in
  let st2 := setPlanStates (λ _, nextStates) st1 in
  setActivity
    (λ prev,
       createActivity w (lit "Mission Rebuilt")
         (lit "Agent recalibrated around " ++ quote_mark ++
          or_else (MissionConfig.goal (config st)) (lit "new objective") ++
          quote_mark ++ lit ".")
       :: prev)
    st2.

(** The updater passed to [setPlanStates] in [handleAdvance]; [plan] is
    [blueprint.plan] of the render the handler closes over. *)
Definition advancePlanStates
    (plan : list PlanStep.t) (step : PlanStep.t) (prev : PlanState) : PlanState :=
  let next := spreadWith (PlanStep.id step) done prev in
  let currentIndex :=
    findIndex (λ item, bool_decide (PlanStep.id item = PlanStep.id step)) plan in
  let nextStep := array_get plan (currentIndex + 1)%Z in
  match nextStep with
  | Some nextStep => assignMember (PlanStep.id nextStep) active next
  | None => next
  end.

Definition handleAdvance (w : World) (step : PlanStep.t) (st : State) : State :=
  let st1 :=
    setPlanStates (advancePlanStates (AgentBlueprint.plan (blueprint st)) step) st in
  setActivity
    (λ prev,
       createActivity w (lit "Step Advanced")
         (PlanStep.title step ++ lit " marked complete. Catalyst: " ++
          PlanStep.catalyst step ++ lit ".")
       :: prev)
    st1.

(** [now_id] and [now_created] are the results of the two [Date.now()]
    calls. *)
Definition handleInsightCreate
    (now_id now_created : Z) (w : World) (st : State) : State :=
  match trim (insightDraft st) with
  | [] => st
  | _ :: _ =>
      let entry :=
        {| Insight.id := lit "insight-" ++ number_to_string now_id;
           Insight.text := trim (insightDraft st);
           Insight.category := insightCategory st;
           Insight.createdAt := now_created |} in
      let st1 := setInsights (λ prev, entry :: prev) st in
      let st2 := setInsightDraft [] st1 in
      setActivity
        (λ prev,
           createActivity w (lit "Insight Captured") (Insight.text entry) :: prev)
        st2
  end.

(** The updater passed to [setToolHistory] in [handleToolRun]:
    [const history = prev[toolId] || []] followed by
    [{ ...prev, [toolId]: [run, ...history].slice(0, 5) }]. An array is
    truthy, and so is an inherited member; spreading the latter into the
    array literal throws a [TypeError] ([None]). *)
Definition pushToolRun
    (toolId : jstring) (run : ToolRun.t) (prev : ToolHistory)
    : option ToolHistory :=
  let history :=
    match getMember prev toolId with
    | Undefined => Own []
    | found => found
    end in
  match history with
  | Own history => Some (spreadWith toolId (slice0 5 (run :: history)) prev)
  | _ => None
  end.

(** [None]: the updater throws, and with it the render of the component. *)
Definition handleToolRun
    (w : World) (toolId query : jstring) (st : State) : option State :=
  let run := runToolSimulation w toolId query in
  match pushToolRun toolId run (toolHistory st) with
  | Some nextHistory =>
      let st1 := setToolHistory (λ _, nextHistory) st in
      Some (setActivity
              (λ prev,
                 createActivity w (lit "Tool Fired")
                   (toolId ++ lit " returned " ++ ToolRun.headline run)
                 :: prev)
              st1)
  | None => None
  end.

(** The inline [onChange] handlers of the form controls. *)
Definition changeGoal (v : jstring) : State → State :=
  setConfig (λ prev,
    MissionConfig.mk v (MissionConfig.context prev) (MissionConfig.timeframe prev)
      (MissionConfig.intensity prev) (MissionConfig.guardrails prev)).

Definition changeContext (v : jstring) : State → State :=
  setConfig (λ prev,
    MissionConfig.mk (MissionConfig.goal prev) v (MissionConfig.timeframe prev)
      (MissionConfig.intensity prev) (MissionConfig.guardrails prev)).

Definition changeTimeframe (v : MissionTimeframe) : State → State :=
  setConfig (λ prev,
    MissionConfig.mk (MissionConfig.goal prev) (MissionConfig.context prev) v
      (MissionConfig.intensity prev) (MissionConfig.guardrails prev)).

Definition changeIntensity (v : Intensity) : State → State :=
  setConfig (λ prev,
    MissionConfig.mk (MissionConfig.goal prev) (MissionConfig.context prev)
      (MissionConfig.timeframe prev) v (MissionConfig.guardrails prev)).

Definition changeGuardrails (v : jstring) : State → State :=
  setConfig (λ prev,
    MissionConfig.mk (MissionConfig.goal prev) (MissionConfig.context prev)
      (MissionConfig.timeframe prev) (MissionConfig.intensity prev) v).

(** ** User actions

    One constructor per control of the rendered page. A plan step and a
    tool are addressed by their position in the rendered list. *)
Inductive Action :=
| EditGoal (v : jstring)
| EditContext (v : jstring)
| EditTimeframe (v : MissionTimeframe)
| EditIntensity (v : Intensity)
| EditGuardrails (v : jstring)
| ClickIgnite (w : World)
| ClickFire (i : nat) (w : World)
| EditKnowledgeQuery (q : jstring)
| ClickAdvance (i : nat) (w : World)
| EditInsightCategory (c : Category)
| EditInsightDraft (v : jstring)
| ClickCapture (now_id now_created : Z) (w : World).

(** The effect of one action on a page that displays [st]; [None] when the
    action is not performed: the page offers no such control (no step or
    tool at that position, or the step's button is disabled), or the
    handler's updater throws. *)
Definition perform (st : State) (a : Action) : option State :=
  match a with
  | EditGoal v => Some (changeGoal v st)
  | EditContext v => Some (changeContext v st)
  | EditTimeframe v => Some (changeTimeframe v st)
  | EditIntensity v => Some (changeIntensity v st)
  | EditGuardrails v => Some (changeGuardrails v st)
  | ClickIgnite w => Some (handleGenerate w st)
  | ClickFire i w =>
      match AgentBlueprint.tools (blueprint st) !! i with
      | Some tool =>
          handleToolRun w (Tool.id tool) (MissionConfig.goal (config st)) st
      | None => None
      end
  | EditKnowledgeQuery q => Some (setKnowledgeQuery q st)
  | ClickAdvance i w =>
      match AgentBlueprint.plan (blueprint st) !! i with
      | Some step =>
          if bool_decide (statusOf (planStates st) step = active)
          then Some (handleAdvance w step st)
          else None
      | None => None
      end
  | EditInsightCategory c => Some (setInsightCategory c st)
  | EditInsightDraft v => Some (setInsightDraft v st)
  | ClickCapture now_id now_created w =>
      Some (handleInsightCreate now_id now_created w st)
  end.

Fixpoint performAll (st : State) (acts : list Action) : option State :=
  match acts with
  | [] => Some st
  | a :: rest =>
      match perform st a with
      | Some st' => performAll st' rest
      | None => None
      end
  end.

(** Classification of actions used in the statements. *)
Definition isIgnite (a : Action) : bool :=
  match a with ClickIgnite _ => true | _ => false end.

Definition isAdvance (a : Action) : bool :=
  match a with ClickAdvance _ _ => true | _ => false end.

(** The actions whose handler calls [setActivity]: the four click handlers,
    the capture one only past its blank-draft guard. *)
Definition logsActivity (st : State) (a : Action) : bool :=
  match a with
  | ClickIgnite _ | ClickFire _ _ | ClickAdvance _ _ => true
  | ClickCapture _ _ _ =>
      match trim (insightDraft st) with [] => false | _ :: _ => true end
  | _ => false
  end.

(** The number of advancements in a sequence of actions. *)
Definition countAdvances (acts : list Action) : nat :=
  length (List.filter isAdvance acts).

End Handlers.

(** ** Observations of the plan used in the statements *)

Definition planIds (plan : list PlanStep.t) : list jstring :=
  PlanStep.id <$> plan.

(** The number of steps of the plan rendered with status [s]. *)
Definition countStatus (s : Status) (plan : list PlanStep.t) (ps : PlanState) : nat :=
  length (filter (λ step, statusOf ps step = s) plan).

(** The first step, in plan order, that is not rendered as done. *)
Definition firstNotDone (plan : list PlanStep.t) (ps : PlanState) : option PlanStep.t :=
  find (λ step, negb (bool_decide (statusOf ps step = done))) plan.

(** The status of position [i] once the first [k] steps were advanced. *)
Definition phase (k i : nat) : Status :=
  if (i <? k)%nat then done else if (i =? k)%nat then active else pending.

(** The plan state after [k] advancements of a plan seeded afresh: every
    step has the status of its phase, except that a step with the id
    [__proto__] has none; such a step is not among the first [k]. *)
Definition progressed (k : nat) (plan : list PlanStep.t) (ps : PlanState) : Prop :=
  (k ≤ length plan)%nat ∧
  ∀ i step, plan !! i = Some step →
    if bool_decide (PlanStep.id step = PROTO)
    then ps !! PlanStep.id step = None ∧ (k ≤ i)%nat
    else ps !! PlanStep.id step = Some (phase k i).

(** ** Sequences of tool invocations *)

Section ToolInvocations.

Context {World : Type}.
Variable createActivity : World → jstring → jstring → ActivityLogItem.t.
Variable runToolSimulation : World → jstring → jstring → ToolRun.t.

(** One call [handleToolRun(toolId, query)] in world [w]. *)
Record Invocation := mkInvocation {
  inv_world : World;
  inv_toolId : jstring;
  inv_query : jstring;
}.

Definition invoke (st : State) (c : Invocation) : option State :=
  handleToolRun createActivity runToolSimulation
    (inv_world c) (inv_toolId c) (inv_query c) st.

(** The calls of a sequence applied one after the other, oldest first;
    [None] as soon as one of them throws. *)
Fixpoint invokeAll (st : State) (calls : list Invocation) : option State :=
  match calls with
  | [] => Some st
  | c :: rest =>
      match invoke st c with
      | Some st' => invokeAll st' rest
      | None => None
      end
  end.

(** The runs produced for [toolId] by a sequence of calls, oldest first. *)
Definition runsFor (toolId : jstring) (calls : list Invocation) : list ToolRun.t :=
  (λ c, runToolSimulation (inv_world c) (inv_toolId c) (inv_query c))
    <$> filter (λ c, inv_toolId c = toolId) calls.

End ToolInvocations.

(** [toolHistory[tool.id]] as the page reads it. *)
Definition historyOf (st : State) (toolId : jstring) : Member (list ToolRun.t) :=
  getMember (toolHistory st) toolId.

(** A tool history as the page can reach it: its keys are not names of
    members of [Object.prototype], and each holds one to five runs. *)
Definition wellKept (history : ToolHistory) : Prop :=
  ∀ toolId runs, history !! toolId = Some runs →
    isInherited toolId = false ∧ runs ≠ [] ∧ (length runs ≤ 5)%nat.

(** ** Knowledge search *)

(** [hay.startsWith(needle)] *)
Fixpoint startsWith (needle hay : jstring) : bool :=
  match needle, hay with
  | [], _ => true
  | _ :: _, [] => false
  | a :: needle', b :: hay' => (a =? b)%N && startsWith needle' hay'
  end.

(** [hay.includes(needle)]: [needle] occurs in [hay] as a substring. *)
Fixpoint includes (needle hay : jstring) : bool :=
  startsWith needle hay ||
  match hay with
  | [] => false
  | _ :: hay' => includes needle hay'
  end.

(** An item matches a query that occurs in its title, its summary or one
    of its tags. *)
Definition matchesQuery (query : jstring) (item : KnowledgeItem.t) : bool :=
  includes query (KnowledgeItem.title item) ||
  includes query (KnowledgeItem.summary item) ||
  existsb (includes query) (KnowledgeItem.tags item).

(** Modelled from the spec: [searchKnowledge] and the knowledge catalog are
    defined in ["@/lib/agent"], which is absent from the sources. The spec
    describes it as filtering "a fixed in-memory catalog of knowledge items
    by substring/keyword match against title, summary, or tags", with "no
    ranking beyond inclusion". The catalog is a parameter. *)
Definition searchKnowledge
    (catalog : list KnowledgeItem.t) (query : jstring) : list KnowledgeItem.t :=
  List.filter (matchesQuery query) catalog.

(** ** A concrete instance

    Stand-ins for the imported generators, used to run the handlers on
    concrete inputs. The world is a clock reading. *)

Definition sampleStep (id title : string) : PlanStep.t :=
  {| PlanStep.id := lit id;
     PlanStep.title := lit title;
     PlanStep.duration := lit "1 week";
     PlanStep.narrative := lit "narrative";
     PlanStep.leverage := lit "high";
     PlanStep.confidence := 80%Z;
     PlanStep.energy := lit "medium";
     PlanStep.catalyst := lit "catalyst";
     PlanStep.dependencies := [] |}.

Definition samplePlan : list PlanStep.t :=
  [sampleStep "scan" "Scan"; sampleStep "build" "Build"; sampleStep "scale" "Scale"].

Definition sampleTools : list Tool.t :=
  [Tool.mk (lit "radar") (lit "Radar") (lit "Signal radar") (lit "scan the market");
   Tool.mk (lit "forge") (lit "Forge") (lit "Asset forge") (lit "draft assets")].

Definition sample_craftBlueprint (w : Z) (cfg : MissionConfig.t) : AgentBlueprint.t :=
  {| AgentBlueprint.missionTitle := MissionConfig.goal cfg;
     AgentBlueprint.missionSummary := MissionConfig.context cfg;
     AgentBlueprint.operatingMode := lit "mode";
     AgentBlueprint.missionArc := lit "arc";
     AgentBlueprint.cadence := lit "weekly";
     AgentBlueprint.plan := samplePlan;
     AgentBlueprint.tools := sampleTools;
     AgentBlueprint.quickActions := [];
     AgentBlueprint.metrics := [];
     AgentBlueprint.focusMap := [] |}.

Definition sample_createActivity (w : Z) (label detail : jstring) : ActivityLogItem.t :=
  {| ActivityLogItem.id := lit "activity-" ++ number_to_string w;
     ActivityLogItem.label := label;
     ActivityLogItem.detail := detail;
     ActivityLogItem.timestamp := w |}.

Definition sample_runToolSimulation (w : Z) (toolId query : jstring) : ToolRun.t :=
  {| ToolRun.timestamp := w;
     ToolRun.headline := toolId ++ lit " signal";
     ToolRun.insight := query;
     ToolRun.signalStrength := 50%Z |}.

Definition sampleState : State :=
  initialState sample_craftBlueprint sample_createActivity 0%Z 1%Z.

Definition samplePerformAll : State → list (@Action Z) → option State :=
  performAll sample_craftBlueprint sample_createActivity sample_runToolSimulation.

Definition sampleCatalog : list KnowledgeItem.t :=
  [KnowledgeItem.mk (lit "k1") (lit "Pipeline playbook") (lit "How to double pipeline")
     [lit "growth"; lit "sales"];
   KnowledgeItem.mk (lit "k2") (lit "Weekly ritual") (lit "Cadence for reviews")
     [lit "ritual"]].

(** Two advancements with an edit in between. *)
Definition sampleActs : list (@Action Z) :=
  [ClickAdvance 0 10%Z; EditGoal (lit "Grow"); ClickAdvance 1 11%Z].

Definition sampleAdvanced : State :=
  default sampleState (samplePerformAll sampleState sampleActs).

(** A step that is not part of [samplePlan]. *)
Definition ghostStep : PlanStep.t := sampleStep "ghost" "Ghost".

(** Six runs of one tool with a run of another in between, at clock
    readings 1 to 7. *)
Definition sampleCalls : list (@Invocation Z) :=
  [mkInvocation 1%Z (lit "radar") (lit "q");
   mkInvocation 2%Z (lit "radar") (lit "q");
   mkInvocation 3%Z (lit "forge") (lit "q");
   mkInvocation 4%Z (lit "radar") (lit "q");
   mkInvocation 5%Z (lit "radar") (lit "q");
   mkInvocation 6%Z (lit "radar") (lit "q");
   mkInvocation 7%Z (lit "radar") (lit "q")].

Definition sampleInvoked : State :=
  default sampleState
    (invokeAll sample_createActivity sample_runToolSimulation sampleState sampleCalls).

(** ** Further observations of action sequences and of the rendered page *)

Section Traces.

Context {World : Type}.

Definition isFire (a : @Action World) : bool :=
  match a with ClickFire _ _ => true | _ => false end.

(** The five [onChange] handlers that call [setConfig]. *)
Definition isConfigEdit (a : @Action World) : bool :=
  match a with
  | EditGoal _ | EditContext _ | EditTimeframe _ | EditIntensity _
  | EditGuardrails _ => true
  | _ => false
  end.

Definition isCapture (a : @Action World) : bool :=
  match a with ClickCapture _ _ _ => true | _ => false end.

(** The plan positions whose button is clicked, in the order of the clicks. *)
Definition advancePositions (acts : list (@Action World)) : list nat :=
  omap (λ a, match a with ClickAdvance i _ => Some i | _ => None end) acts.

(** The number of advancements after the last regeneration. *)
Definition advancesSinceIgnite (acts : list (@Action World)) : nat :=
  foldl (λ n a, if isIgnite a then 0%nat else if isAdvance a then S n else n)
        0%nat acts.

(** The number of clicks on "Ignite Agent", "Fire" and a step's button. *)
Definition countLoggedClicks (acts : list (@Action World)) : nat :=
  length (List.filter (λ a, isIgnite a || isFire a || isAdvance a) acts).

End Traces.

Section AdvanceInOrder.

Context {World : Type}.
Variable createActivity : World → jstring → jstring → ActivityLogItem.t.

(** [handleAdvance] called on the steps of a list one after the other, one
    world per call. *)
Fixpoint advanceSteps
    (ws : list World) (steps : list PlanStep.t) (st : State) : State :=
  match ws, steps with
  | w :: ws', step :: steps' =>
      advanceSteps ws' steps' (handleAdvance createActivity w step st)
  | _, _ => st
  end.

End AdvanceInOrder.

(** The text beside the target icon of the plan timeline:
    [activeStep ? `Current focus: ${activeStep.title}` : "All steps complete"]. *)
Definition focusLabel (st : State) : jstring :=
  match activeStep st with
  | Some step => lit "Current focus: " ++ PlanStep.title step
  | None => lit "All steps complete"
  end.

(** A text that is not empty and neither starts nor ends with white space. *)
Definition trimmedText (s : jstring) : Prop :=
  s ≠ [] ∧
  (∀ c, head s = Some c → is_white_space c = false) ∧
  (∀ c, last s = Some c → is_white_space c = false).

(** The three-way choice of a step's button: [disabled={!isActive}] and the
    caption chosen by [isDone ? ... : isActive ? ... : ...]. *)
Definition buttonDisabled (ps : PlanState) (step : PlanStep.t) : bool :=
  negb (bool_decide (statusOf ps step = active)).

Definition buttonCaption (ps : PlanState) (step : PlanStep.t) : jstring :=
  if bool_decide (statusOf ps step = done) then lit "Completed"
  else if bool_decide (statusOf ps step = active) then lit "Mark Complete"
  else lit "Locked".

(** A longer session: an advancement, a regeneration, another
    advancement, a padded insight and a tool run. *)
Definition sampleTrace : list (@Action Z) :=
  [ClickAdvance 0 10%Z; ClickIgnite 12%Z; ClickAdvance 0 13%Z;
   EditInsightDraft (lit "  hold the line  "); ClickCapture 100%Z 101%Z 14%Z;
   ClickFire 0 15%Z].

Definition sampleReached : State :=
  default sampleState (samplePerformAll sampleState sampleTrace).

(** One world per step of the sample plan. *)
Definition sampleWorlds : list Z := [10%Z; 11%Z; 12%Z].

Definition sampleCompleted : State :=
  advanceSteps sample_createActivity sampleWorlds samplePlan sampleState.

(** Generators whose plans repeat an id or use the id [__proto__], and one
    whose tool is named like a member of [Object.prototype]. *)
Definition craftWith (plan : list PlanStep.t) (tools : list Tool.t)
    (w : Z) (cfg : MissionConfig.t) : AgentBlueprint.t :=
  {| AgentBlueprint.missionTitle := MissionConfig.goal cfg;
     AgentBlueprint.missionSummary := MissionConfig.context cfg;
     AgentBlueprint.operatingMode := lit "mode";
     AgentBlueprint.missionArc := lit "arc";
     AgentBlueprint.cadence := lit "weekly";
     AgentBlueprint.plan := plan;
     AgentBlueprint.tools := tools;
     AgentBlueprint.quickActions := [];
     AgentBlueprint.metrics := [];
     AgentBlueprint.focusMap := [] |}.

(** The second id occurs twice. *)
Definition repeatedPlan : list PlanStep.t :=
  [sampleStep "scan" "Scan"; sampleStep "build" "Build";
   sampleStep "build" "Build again"].





Definition repeatedState : State :=
  initialState (craftWith repeatedPlan sampleTools) sample_createActivity 0%Z 1%Z.


(** ** Facts about arrays and the seeding loop *)

Lemma filter_all {A} (P : A → Prop) `{∀ x, Decision (P x)} (l : list A) :
  Forall P l → filter P l = l.
Proof.
  induction 1 as [|x l Hx _ IH]; [done|].
  by rewrite filter_cons_True, IH.
Qed.

Lemma filter_none {A} (P : A → Prop) `{∀ x, Decision (P x)} (l : list A) :
  Forall (λ x, ¬ P x) l → filter P l = [].
Proof.
  induction 1 as [|x l Hx _ IH]; [done|].
  by rewrite filter_cons_False.
Qed.

Lemma find_skip {A} (p : A → bool) (l1 l2 : list A) :
  Forall (λ x, p x = false) l1 → find p (l1 ++ l2) = find p l2.
Proof.
  induction 1 as [|x l Hx _ IH]; [done|].
  simpl. by rewrite Hx.
Qed.

Lemma find_all_false {A} (p : A → bool) (l : list A) :
  Forall (λ x, p x = false) l → find p l = None.
Proof. intros H. rewrite <- (app_nil_r l). by rewrite find_skip. Qed.

Lemma findIndex_from_found {A} (p : A → bool) (l : list A) (k : nat) (x : A) (j : Z) :
  l !! k = Some x → p x = true →
  (∀ i y, (i < k)%nat → l !! i = Some y → p y = false) →
  findIndex_from p l j = (j + Z.of_nat k)%Z.
Proof.
  revert k j. induction l as [|a l IH]; intros k j Hk Hp Hbefore; [done|].
  destruct k as [|k]; simpl in *.
  - injection Hk as ->. rewrite Hp. lia.
  - rewrite (Hbefore 0%nat a) by (done || lia).
    rewrite (IH k (j + 1)%Z); [lia|done..|].
    intros i y Hi Hy. apply (Hbefore (S i) y); [lia|done].
Qed.

Lemma findIndex_from_absent {A} (p : A → bool) (l : list A) (j : Z) :
  Forall (λ x, p x = false) l → findIndex_from p l j = (-1)%Z.
Proof.
  intros H. revert j. induction H as [|x l Hx _ IH]; intros j; [done|].
  simpl. by rewrite Hx.
Qed.

Lemma planIds_lookup plan i step :
  plan !! i = Some step → planIds plan !! i = Some (PlanStep.id step).
Proof. intros H. unfold planIds. by rewrite list_lookup_fmap, H. Qed.

(** With distinct ids, two positions holding the same id coincide. *)
Lemma planIds_inj plan i j a b :
  NoDup (planIds plan) → plan !! i = Some a → plan !! j = Some b →
  PlanStep.id a = PlanStep.id b → i = j.
Proof.
  intros Hnd Ha Hb Hid.
  apply planIds_lookup in Ha, Hb. rewrite Hid in Ha.
  by eapply NoDup_lookup.
Qed.

Lemma findIndex_position plan k step :
  NoDup (planIds plan) → plan !! k = Some step →
  findIndex (λ item, bool_decide (PlanStep.id item = PlanStep.id step)) plan
  = Z.of_nat k.
Proof.
  intros Hnd Hk. unfold findIndex.
  rewrite (findIndex_from_found _ plan k step 0); [lia|done| |].
  - by apply bool_decide_eq_true.
  - intros i y Hi Hy. apply bool_decide_eq_false. intros Hid.
    assert (i = k) by eauto using planIds_inj. lia.
Qed.

Lemma findIndex_foreign plan step :
  PlanStep.id step ∉ planIds plan →
  findIndex (λ item, bool_decide (PlanStep.id item = PlanStep.id step)) plan
  = (-1)%Z.
Proof.
  intros Hnotin. apply findIndex_from_absent, Forall_forall.
  intros item Hitem. apply bool_decide_eq_false. intros Hid.
  apply Hnotin. rewrite <- Hid. by apply list_elem_of_fmap_2.
Qed.

Lemma array_get_nat {A} (l : list A) (i : nat) :
  array_get l (Z.of_nat i) = l !! i.
Proof.
  unfold array_get. destruct (Z.ltb_spec (Z.of_nat i) 0); [lia|].
  by rewrite Nat2Z.id.
Qed.

(** ** Reads and assignments on plain objects *)

Lemma lookup_assignMember_ne {V} (key key' : jstring) (v : V) (obj : gmap (list N) V) :
  key ≠ key' → assignMember key v obj !! key' = obj !! key'.
Proof.
  intros Hne. unfold assignMember. case_bool_decide.
  - destruct (obj !! key); [by rewrite lookup_insert_ne|done].
  - by rewrite lookup_insert_ne.
Qed.

Lemma lookup_assignMember_eq {V} (key : jstring) (v : V) (obj : gmap (list N) V) :
  key ≠ PROTO → assignMember key v obj !! key = Some v.
Proof.
  intros Hne. unfold assignMember.
  rewrite bool_decide_eq_false_2 by done. apply lookup_insert_eq.
Qed.

Lemma assignMember_proto {V} (v : V) (obj : gmap (list N) V) :
  obj !! PROTO = None → assignMember PROTO v obj = obj.
Proof.
  intros Hnone. unfold assignMember.
  rewrite bool_decide_eq_true_2 by done. by rewrite Hnone.
Qed.

Lemma lookup_assignMember_proto {V} (key : jstring) (v : V) (obj : gmap (list N) V) :
  obj !! PROTO = None → assignMember key v obj !! PROTO = None.
Proof.
  intros Hnone. destruct (decide (key = PROTO)) as [->|Hne].
  - by rewrite assignMember_proto.
  - by rewrite lookup_assignMember_ne.
Qed.

Lemma getMember_own {V} (obj : gmap (list N) V) (key : jstring) (v : V) :
  getMember obj key = Own v ↔ obj !! key = Some v.
Proof.
  unfold getMember. destruct (obj !! key) as [u|].
  - split; by intros [= ->].
  - by destruct (isInherited key).
Qed.

(** ** The seeding loop *)

Lemma seedPlanStates_from_other plan index next key :
  key ∉ planIds plan → seedPlanStates_from plan index next !! key = next !! key.
Proof.
  revert index next. induction plan as [|step rest IH]; intros index next Hkey; [done|].
  simpl in *. apply not_elem_of_cons in Hkey as [Hne Hkey].
  rewrite IH by done. by rewrite lookup_assignMember_ne.
Qed.

Lemma seedPlanStates_from_proto plan : ∀ index (next : PlanState),
  next !! PROTO = None → seedPlanStates_from plan index next !! PROTO = None.
Proof.
  induction plan as [|step rest IH]; intros index next Hnone; [done|].
  simpl. apply IH. by apply lookup_assignMember_proto.
Qed.

Lemma seedPlanStates_from_lookup plan index next i step :
  NoDup (planIds plan) → plan !! i = Some step → PlanStep.id step ≠ PROTO →
  seedPlanStates_from plan index next !! PlanStep.id step
  = Some (if Nat.eqb (index + i) 0 then active else pending).
Proof.
  revert index next i.
  induction plan as [|first rest IH]; intros index next i Hnd Hi Hproto; [done|].
  simpl in Hnd. apply NoDup_cons in Hnd as [Hfirst Hnd].
  destruct i as [|i]; simpl in *.
  - injection Hi as ->.
    rewrite seedPlanStates_from_other by done.
    by rewrite lookup_assignMember_eq, Nat.add_0_r.
  - rewrite (IH (S index) _ i) by done.
    by replace (S index + i)%nat with (index + S i)%nat by lia.
Qed.

(** ** The plan state machine *)

Lemma phase_done k i : phase k i = done ↔ (i < k)%nat.
Proof.
  unfold phase. destruct (Nat.ltb_spec i k); [done|].
  destruct (Nat.eqb_spec i k); split; (done || lia).
Qed.

Lemma phase_active k i : phase k i = active ↔ i = k.
Proof.
  unfold phase. destruct (Nat.ltb_spec i k); [split; (done || lia)|].
  destruct (Nat.eqb_spec i k); split; (done || lia).
Qed.

Lemma seedPlanStates_progressed plan :
  NoDup (planIds plan) → progressed 0 plan (seedPlanStates plan).
Proof.
  intros Hnd. split; [lia|]. intros i step Hi.
  unfold seedPlanStates. case_bool_decide as Hproto.
  - split; [|lia]. rewrite Hproto. by apply seedPlanStates_from_proto.
  - rewrite (seedPlanStates_from_lookup _ _ _ i) by done.
    by destruct i.
Qed.


Lemma progressed_statusOf k plan ps i step :
  progressed k plan ps → plan !! i = Some step →
  statusOf ps step
  = if bool_decide (PlanStep.id step = PROTO) then pending else phase k i.
Proof.
  intros [_ H] Hi. specialize (H i step Hi). unfold statusOf.
  case_bool_decide; [by destruct H as [-> _]|by rewrite H].
Qed.

Lemma progressed_done_iff k plan ps i step :
  progressed k plan ps → plan !! i = Some step →
  statusOf ps step = done ↔ (i < k)%nat.
Proof.
  intros Hp Hi. rewrite (progressed_statusOf k plan ps i step Hp Hi).
  destruct Hp as [_ H]. specialize (H i step Hi).
  case_bool_decide.
  - destruct H as [_ Hle]. split; [done|lia].
  - apply phase_done.
Qed.

Lemma progressed_active_iff k plan ps i step :
  progressed k plan ps → plan !! i = Some step →
  statusOf ps step = active ↔ i = k ∧ PlanStep.id step ≠ PROTO.
Proof.
  intros Hp Hi. rewrite (progressed_statusOf k plan ps i step Hp Hi).
  case_bool_decide.
  - split; [done|]. by intros [_ ?].
  - rewrite phase_active. split; [done|]. by intros [? _].
Qed.

Lemma progressed_active_position k plan ps i step :
  progressed k plan ps → plan !! i = Some step →
  statusOf ps step = active → i = k.
Proof.
  intros Hp Hi Hst. by apply (progressed_active_iff k plan ps i step Hp Hi) in Hst as [? _].
Qed.

Lemma phase_other k i : i ≠ k → i ≠ S k → phase (S k) i = phase k i.
Proof.
  intros H1 H2. unfold phase.
  destruct (Nat.ltb_spec i k), (Nat.ltb_spec i (S k)),
    (Nat.eqb_spec i k), (Nat.eqb_spec i (S k)); (done || lia).
Qed.

(** Marking the step at position [k] done, before the next step is looked at. *)
Lemma markDone_lookup k plan ps step i item :
  NoDup (planIds plan) → progressed k plan ps → plan !! k = Some step →
  PlanStep.id step ≠ PROTO → plan !! i = Some item →
  if bool_decide (PlanStep.id item = PROTO)
  then <[PlanStep.id step := done]> ps !! PlanStep.id item = None ∧ (S k ≤ i)%nat
  else <[PlanStep.id step := done]> ps !! PlanStep.id item
       = Some (if decide (i = k) then done else phase k i).
Proof.
  intros Hnd [_ Hp] Hk Hstep Hi. pose proof (Hp i item Hi) as Hitem.
  case_bool_decide as Hproto.
  - destruct Hitem as [Hnone Hle].
    rewrite lookup_insert_ne by congruence. split; [done|].
    assert (i ≠ k) by (intros ->; congruence). lia.
  - destruct (decide (i = k)) as [->|Hik].
    + assert (item = step) as -> by congruence. by rewrite lookup_insert_eq.
    + rewrite lookup_insert_ne; [done|].
      intros Hid. apply Hik. symmetry. eauto using planIds_inj.
Qed.

(** Advancing the step at position [k] of a plan in phase [k] yields
    phase [k + 1]. *)
Lemma advancePlanStates_progressed k plan ps step :
  NoDup (planIds plan) → progressed k plan ps → plan !! k = Some step →
  PlanStep.id step ≠ PROTO →
  progressed (S k) plan (advancePlanStates plan step ps).
Proof.
  intros Hnd Hp Hk Hstep.
  assert (k < length plan)%nat as Hlt by (by eapply lookup_lt_Some).
  split; [lia|]. intros i item Hi.
  pose proof (markDone_lookup k plan ps step i item Hnd Hp Hk Hstep Hi) as Hmark.
  unfold advancePlanStates, spreadWith.
  rewrite (findIndex_position plan k step) by done.
  replace (Z.of_nat k + 1)%Z with (Z.of_nat (S k)) by lia.
  rewrite array_get_nat.
  destruct (plan !! S k) as [nextStep|] eqn:Hnext.
  - destruct (decide (PlanStep.id nextStep = PROTO)) as [Hnp|Hnp].
    + (* the assignment to [__proto__] is ignored *)
      pose proof (markDone_lookup k plan ps step (S k) nextStep
                    Hnd Hp Hk Hstep Hnext) as Hnone.
      rewrite bool_decide_eq_true_2 in Hnone by done.
      destruct Hnone as [Hnone _]. rewrite Hnp in Hnone |- *.
      rewrite assignMember_proto by done.
      case_bool_decide as Hproto; [done|].
      rewrite Hmark. f_equal.
      assert (i ≠ S k) by (intros ->; congruence).
      destruct (decide (i = k)) as [->|Hik].
      * symmetry. apply phase_done. lia.
      * symmetry. by apply phase_other.
    + case_bool_decide as Hproto.
      * rewrite lookup_assignMember_ne by congruence. done.
      * destruct (decide (i = S k)) as [->|HiS].
        -- assert (item = nextStep) as -> by congruence.
           rewrite lookup_assignMember_eq by done.
           f_equal. symmetry. by apply phase_active.
        -- rewrite lookup_assignMember_ne.
           ++ rewrite Hmark. f_equal.
              destruct (decide (i = k)) as [->|Hik].
              ** symmetry. apply phase_done. lia.
              ** symmetry. by apply phase_other.
           ++ intros Hid. apply HiS. symmetry. eauto using planIds_inj.
  - apply lookup_ge_None in Hnext.
    assert (i < length plan)%nat by (by eapply lookup_lt_Some).
    case_bool_decide as Hproto; [done|].
    rewrite Hmark. f_equal.
    destruct (decide (i = k)) as [->|Hik].
    + symmetry. apply phase_done. lia.
    + symmetry. apply phase_other; lia.
Qed.

(** What a plan in phase [k] looks like: the first [k] steps are done, the
    later ones are not, and only the step at position [k] can be active. *)
Lemma progressed_take k plan ps :
  progressed k plan ps →
  Forall (λ step, statusOf ps step = done) (take k plan).
Proof.
  intros Hp. apply Forall_lookup. intros i step Hi.
  apply lookup_take_Some in Hi as [Hi Hlt].
  by apply (progressed_done_iff k plan ps i step).
Qed.

Lemma progressed_drop k plan ps :
  progressed k plan ps →
  Forall (λ step, statusOf ps step ≠ done) (drop k plan).
Proof.
  intros Hp. apply Forall_lookup. intros i step Hi.
  rewrite lookup_drop in Hi.
  rewrite (progressed_done_iff k plan ps (k + i) step) by done. lia.
Qed.

Lemma progressed_countDone k plan ps :
  progressed k plan ps → countStatus done plan ps = k.
Proof.
  intros Hp. unfold countStatus.
  rewrite <- (take_drop k plan), filter_app.
  rewrite filter_all by (by eapply progressed_take).
  rewrite filter_none by (by eapply progressed_drop).
  rewrite app_nil_r, length_take. destruct Hp. lia.
Qed.

Lemma progressed_countActive k plan ps :
  progressed k plan ps → (countStatus active plan ps ≤ 1)%nat.
Proof.
  intros Hp. unfold countStatus.
  rewrite <- (take_drop (S k) plan), <- (take_drop k (take (S k) plan)).
  rewrite !filter_app, !length_app.
  rewrite (filter_none _ (take k _)), (filter_none _ (drop (S k) _)).
  - pose proof (length_filter (λ step, statusOf ps step = active)
                  (drop k (take (S k) plan))) as Hlen.
    rewrite length_drop, length_take in Hlen. simpl. lia.
  - apply Forall_lookup. intros i step Hi. rewrite lookup_drop in Hi.
    rewrite (progressed_active_iff k plan ps (S k + i) step) by done.
    intros [? _]. lia.
  - apply Forall_lookup. intros i step Hi.
    apply lookup_take_Some in Hi as [Hi Hlt].
    apply lookup_take_Some in Hi as [Hi _].
    rewrite (progressed_active_iff k plan ps i step) by done.
    intros [? _]. lia.
Qed.

Lemma progressed_firstNotDone k plan ps :
  progressed k plan ps → firstNotDone plan ps = plan !! k.
Proof.
  intros Hp. unfold firstNotDone.
  rewrite <- (take_drop k plan) at 1.
  rewrite find_skip.
  - pose proof (progressed_drop k plan ps Hp) as Hdrop.
    replace (plan !! k) with (drop k plan !! 0%nat)
      by (rewrite lookup_drop; f_equal; lia).
    destruct (drop k plan) as [|step rest]; [done|].
    apply Forall_cons in Hdrop as [Hstep _]. simpl.
    by rewrite bool_decide_eq_false_2.
  - eapply Forall_impl; [by eapply progressed_take|].
    intros step Hstep. simpl in *. by rewrite bool_decide_eq_true_2.
Qed.

(** The component's [activeStep] is the step at position [k], unless there
    is none or its id is [__proto__]. *)
Lemma progressed_activeStep_lookup k plan ps :
  progressed k plan ps →
  find (λ step, bool_decide (ps !! PlanStep.id step = Some active)) plan
  = match plan !! k with
    | Some step => if bool_decide (PlanStep.id step = PROTO) then None else Some step
    | None => None
    end.
Proof.
  intros Hp.
  assert (∀ i step, plan !! i = Some step →
            ps !! PlanStep.id step = Some active ↔ i = k ∧ PlanStep.id step ≠ PROTO)
    as Hactive.
  { intros i step Hi. destruct Hp as [_ Hp]. specialize (Hp i step Hi).
    case_bool_decide as Hproto.
    - destruct Hp as [-> _]. split; [done|]. by intros [_ ?].
    - rewrite Hp. split.
      + intros [= Hph]. by apply phase_active in Hph.
      + intros [-> _]. f_equal. by apply phase_active. }
  rewrite <- (take_drop k plan) at 1.
  rewrite find_skip.
  - replace (plan !! k) with (drop k plan !! 0%nat)
      by (rewrite lookup_drop; f_equal; lia).
    destruct (drop k plan) as [|step rest] eqn:Hdrop; [done|].
    assert (plan !! k = Some step) as Hk.
    { replace k with (k + 0)%nat by lia. by rewrite <- lookup_drop, Hdrop. }
    simpl. destruct (decide (PlanStep.id step = PROTO)) as [Hproto|Hproto].
    + rewrite (bool_decide_eq_true_2 (PlanStep.id step = PROTO)) by done.
      rewrite bool_decide_eq_false_2
        by (intros Ha; by destruct (proj1 (Hactive k step Hk) Ha) as [_ ?]).
      apply find_all_false, Forall_lookup. intros j item Hj.
      assert (plan !! (k + S j)%nat = Some item) as Hitem.
      { rewrite <- lookup_drop, Hdrop. done. }
      apply bool_decide_eq_false. intros Ha.
      destruct (proj1 (Hactive _ item Hitem) Ha) as [? _]. lia.
    + rewrite (bool_decide_eq_false_2 (PlanStep.id step = PROTO)) by done.
      rewrite bool_decide_eq_true_2; [done|]. by apply (Hactive k step Hk).
  - apply Forall_lookup. intros i step Hi.
    apply lookup_take_Some in Hi as [Hi Hlt].
    apply bool_decide_eq_false. intros Ha.
    destruct (proj1 (Hactive i step Hi) Ha) as [? _]. lia.
Qed.

Lemma progressed_activeStep_plain k plan ps :
  progressed k plan ps → PROTO ∉ planIds plan →
  find (λ step, bool_decide (ps !! PlanStep.id step = Some active)) plan
  = plan !! k.
Proof.
  intros Hp Hproto. rewrite (progressed_activeStep_lookup k plan ps Hp).
  destruct (plan !! k) as [step|] eqn:Hk; [|done].
  rewrite bool_decide_eq_false_2; [done|].
  intros Hid. apply Hproto. rewrite <- Hid.
  apply list_elem_of_fmap_2, list_elem_of_lookup. eauto.
Qed.
(** ** Trimming *)

Lemma trimStart_split s :
  ∃ pre, s = pre ++ trimStart s ∧ Forall (λ c, is_white_space c = true) pre.
Proof.
  induction s as [|c s [pre [Hs Hpre]]]; [by exists []|].
  simpl. destruct (is_white_space c) eqn:Hc.
  - exists (c :: pre). split; [by rewrite Hs at 1|by constructor].
  - by exists [].
Qed.

Lemma trimStart_head s c rest :
  trimStart s = c :: rest → is_white_space c = false.
Proof.
  induction s as [|a s IH]; [done|]. simpl.
  destruct (is_white_space a) eqn:Ha; [done|]. by intros [= <- _].
Qed.

Lemma trimStart_blank s :
  Forall (λ c, is_white_space c = true) s → trimStart s = [].
Proof. induction 1 as [|c s Hc _ IH]; [done|]. simpl. by rewrite Hc. Qed.

Lemma trimStart_app_visible l c r :
  is_white_space c = false → trimStart (l ++ c :: r) = trimStart l ++ c :: r.
Proof.
  intros Hc. induction l as [|a l IH]; simpl; [by rewrite Hc|].
  by destruct (is_white_space a).
Qed.

Lemma trimEnd_split s :
  ∃ post, s = trimEnd s ++ post ∧ Forall (λ c, is_white_space c = true) post.
Proof.
  destruct (trimStart_split (reverse s)) as [pre [Hs Hpre]].
  exists (reverse pre). split; [|by apply Forall_reverse].
  unfold trimEnd. rewrite <- reverse_app, <- Hs. by rewrite reverse_involutive.
Qed.

Lemma trimEnd_last s c :
  last (trimEnd s) = Some c → is_white_space c = false.
Proof.
  unfold trimEnd. rewrite last_reverse.
  destruct (trimStart (reverse s)) as [|a rest] eqn:Ht; [done|].
  intros [= <-]. by eapply trimStart_head.
Qed.

Lemma trimEnd_cons_visible c s :
  is_white_space c = false → trimEnd (c :: s) = c :: trimEnd s.
Proof.
  intros Hc. unfold trimEnd.
  rewrite reverse_cons, trimStart_app_visible by done.
  by rewrite reverse_app.
Qed.

(** [trim] yields the empty string exactly on blank input. *)
Lemma trim_blank_iff s :
  trim s = [] ↔ Forall (λ c, is_white_space c = true) s.
Proof.
  unfold trim. split.
  - intros Ht. destruct (trimStart_split s) as [pre [Hs Hpre]].
    destruct (trimStart s) as [|c rest] eqn:Hstart.
    + by rewrite Hs, app_nil_r.
    + rewrite trimEnd_cons_visible in Ht by (by eapply trimStart_head).
      done.
  - intros Hs. by rewrite trimStart_blank.
Qed.

(** [trim s] is [s] without a blank prefix and a blank suffix, and neither
    starts nor ends with white space. *)
Lemma trim_spec s :
  (∃ pre post, s = pre ++ trim s ++ post ∧
     Forall (λ c, is_white_space c = true) pre ∧
     Forall (λ c, is_white_space c = true) post) ∧
  (∀ c, head (trim s) = Some c → is_white_space c = false) ∧
  (∀ c, last (trim s) = Some c → is_white_space c = false).
Proof.
  unfold trim. split; [|split].
  - destruct (trimStart_split s) as [pre [Hs Hpre]].
    destruct (trimEnd_split (trimStart s)) as [post [Ht Hpost]].
    exists pre, post. split; [|done]. by rewrite <- Ht.
  - intros c. destruct (trimStart s) as [|a rest] eqn:Hstart; [done|].
    assert (is_white_space a = false) as Ha by (by eapply trimStart_head).
    rewrite trimEnd_cons_visible by done. by intros [= <-].
  - intros c. apply trimEnd_last.
Qed.

Lemma visible_not_blank s :
  Exists (λ c, is_white_space c = false) s → trim s ≠ [].
Proof.
  intros Hex Ht. apply trim_blank_iff in Ht.
  apply Exists_exists in Hex as [c [Hin Hc]].
  rewrite Forall_forall in Ht. specialize (Ht c Hin). congruence.
Qed.

(** ** Properties of the handlers *)

Section Properties.

Context {World : Type}.
Variable craftBlueprint : World → MissionConfig.t → AgentBlueprint.t.
Variable createActivity : World → jstring → jstring → ActivityLogItem.t.
Variable runToolSimulation : World → jstring → jstring → ToolRun.t.

Local Abbreviation perform' :=
  (perform craftBlueprint createActivity runToolSimulation).
Local Abbreviation performAll' :=
  (performAll craftBlueprint createActivity runToolSimulation).
Local Abbreviation handleGenerate' := (handleGenerate craftBlueprint createActivity).
Local Abbreviation handleAdvance' := (handleAdvance createActivity).
Local Abbreviation handleInsightCreate' := (handleInsightCreate createActivity).
Local Abbreviation handleToolRun' :=
  (handleToolRun createActivity runToolSimulation).

Lemma handleToolRun_inv w toolId query st st' :
  handleToolRun' w toolId query st = Some st' →
  ∃ nextHistory,
    pushToolRun toolId (runToolSimulation w toolId query) (toolHistory st)
    = Some nextHistory ∧
    st' = setActivity
            (λ prev,
               createActivity w (lit "Tool Fired")
                 (toolId ++ lit " returned " ++
                  ToolRun.headline (runToolSimulation w toolId query))
               :: prev)
            (setToolHistory (λ _, nextHistory) st).
Proof.
  unfold handleToolRun. destruct (pushToolRun _ _ _) as [nextHistory|]; [|done].
  intros [= <-]. by exists nextHistory.
Qed.

(** Every action other than regeneration keeps the blueprint; an
    advancement moves the plan one phase on, the others keep its phase. *)
Lemma perform_progressed k st a st' :
  NoDup (planIds (AgentBlueprint.plan (blueprint st))) →
  progressed k (AgentBlueprint.plan (blueprint st)) (planStates st) →
  isIgnite a = false →
  perform' st a = Some st' →
  blueprint st' = blueprint st ∧
  progressed (if isAdvance a then S k else k)
    (AgentBlueprint.plan (blueprint st')) (planStates st').
Proof.
  intros Hnd Hp Hign Hperf.
  destruct a; simpl in *; try discriminate;
    try (injection Hperf as <-; by split).
  - destruct (AgentBlueprint.tools (blueprint st) !! i); [|done].
    apply handleToolRun_inv in Hperf as (nextHistory & _ & ->). by split.
  - destruct (AgentBlueprint.plan (blueprint st) !! i) as [step|] eqn:Hi; [|done].
    case_bool_decide as Hactive; [|done].
    injection Hperf as <-. split; [done|]. simpl.
    apply (progressed_active_iff k _ _ i step Hp Hi) in Hactive as [-> Hproto].
    by apply advancePlanStates_progressed.
  - unfold handleInsightCreate in Hperf.
    destruct (trim (insightDraft st)); injection Hperf as <-; by split.
Qed.

Lemma performAll_progressed acts : ∀ k st st',
  NoDup (planIds (AgentBlueprint.plan (blueprint st))) →
  progressed k (AgentBlueprint.plan (blueprint st)) (planStates st) →
  Forall (λ a, isIgnite a = false) acts →
  performAll' st acts = Some st' →
  blueprint st' = blueprint st ∧
  progressed (k + countAdvances acts)
    (AgentBlueprint.plan (blueprint st')) (planStates st').
Proof.
  induction acts as [|a acts IH]; intros k st st' Hnd Hp Hign Hrun.
  - injection Hrun as <-. split; [done|].
    by rewrite Nat.add_0_r.
  - apply Forall_cons in Hign as [Ha Hign]. simpl in Hrun.
    destruct (perform' st a) as [st1|] eqn:Hperf; [|done].
    destruct (perform_progressed k st a st1 Hnd Hp Ha Hperf) as [Hb Hp1].
    rewrite <- Hb in Hnd.
    destruct (IH _ st1 st' Hnd Hp1 Hign Hrun) as [Hb' Hp'].
    split; [congruence|].
    unfold countAdvances in *. simpl.
    destruct (isAdvance a); simpl.
    + by replace (k + S (length (List.filter isAdvance acts)))%nat
        with (S k + length (List.filter isAdvance acts))%nat by lia.
    + done.
Qed.

(** C1 (as the code has it). Starting from a freshly seeded plan whose step
    ids are pairwise distinct, after any sequence of actions that does not
    regenerate the blueprint and in which every advancement is performed on
    an enabled (active) step, the number of steps rendered as done equals
    the number N of advancements, at most one step is rendered as active,
    and every active step, the component's [activeStep] included, is the
    first step in plan order that is not done. *)
Theorem advancements_keep_plan_invariant (st st' : State) (acts : list Action) :
  NoDup (planIds (AgentBlueprint.plan (blueprint st))) →
  planStates st = seedPlanStates (AgentBlueprint.plan (blueprint st)) →
  Forall (λ a, isIgnite a = false) acts →
  performAll' st acts = Some st' →
  let plan := AgentBlueprint.plan (blueprint st') in
  countStatus done plan (planStates st') = countAdvances acts ∧
  (countStatus active plan (planStates st') ≤ 1)%nat ∧
  (∀ step, step ∈ plan → statusOf (planStates st') step = active →
           firstNotDone plan (planStates st') = Some step) ∧
  (∀ step, activeStep st' = Some step →
           firstNotDone plan (planStates st') = Some step).
Proof.
  intros Hnd Hseed Hign Hrun plan.
  assert (progressed 0 (AgentBlueprint.plan (blueprint st)) (planStates st)) as Hp0.
  { rewrite Hseed. by apply seedPlanStates_progressed. }
  destruct (performAll_progressed acts 0 st st' Hnd Hp0 Hign Hrun) as [Hb Hp].
  simpl in Hp. fold plan in Hp.
  split; [by apply progressed_countDone|].
  split; [by eapply progressed_countActive|].
  split.
  - intros step Hin Hactive.
    apply list_elem_of_lookup in Hin as [i Hi].
    rewrite (progressed_firstNotDone _ _ _ Hp).
    by rewrite <- (progressed_active_position _ _ _ _ _ Hp Hi Hactive).
  - intros step. unfold activeStep. fold plan.
    rewrite (progressed_activeStep_lookup _ _ _ Hp).
    rewrite (progressed_firstNotDone _ _ _ Hp).
    destruct (plan !! countAdvances acts) as [item|]; [|done].
    by case_bool_decide.
Qed.


(** C5. Regeneration leaves the tool history unchanged: the history map,
    and hence the history list of every tool id, is the same before and
    after. *)
Theorem generate_keeps_toolHistory (w : World) (st : State) :
  toolHistory (handleGenerate' w st) = toolHistory st ∧
  ∀ toolId, historyOf (handleGenerate' w st) toolId = historyOf st toolId.
Proof. by split. Qed.


(** Advancing a step whose id does not occur in the current plan marks that
    foreign id done and, [findIndex] yielding -1, assigns "active" to the
    id of the plan's first step. *)
Lemma advancePlanStates_foreign plan step first rest ps :
  plan = first :: rest →
  PlanStep.id step ∉ planIds plan →
  advancePlanStates plan step ps
  = assignMember (PlanStep.id first) active (<[PlanStep.id step := done]> ps).
Proof.
  intros Hplan Hforeign. unfold advancePlanStates, spreadWith.
  rewrite findIndex_foreign by done. by rewrite Hplan.
Qed.

(** X15. Advancing a step whose id does not occur in the current plan, the
    first step of which has an id other than [__proto__], marks that foreign
    id done and makes the first step of the plan active; all other ids keep
    their status. *)
Theorem advance_foreign_step
    (w : World) (step first : PlanStep.t) (rest : list PlanStep.t) (st : State) :
  AgentBlueprint.plan (blueprint st) = first :: rest →
  PlanStep.id step ∉ planIds (AgentBlueprint.plan (blueprint st)) →
  PlanStep.id first ≠ PROTO →
  let ps' := planStates (handleAdvance' w step st) in
  ps' = <[PlanStep.id first := active]> (<[PlanStep.id step := done]> (planStates st)) ∧
  ps' !! PlanStep.id step = Some done ∧
  ps' !! PlanStep.id first = Some active ∧
  (∀ key, key ≠ PlanStep.id step → key ≠ PlanStep.id first →
          ps' !! key = planStates st !! key).
Proof.
  intros Hplan Hforeign Hproto ps'.
  assert (ps' = <[PlanStep.id first := active]>
                  (<[PlanStep.id step := done]> (planStates st))) as Hps.
  { subst ps'. simpl. rewrite (advancePlanStates_foreign _ _ first rest) by done.
    unfold assignMember. by rewrite bool_decide_eq_false_2. }
  assert (PlanStep.id first ≠ PlanStep.id step) as Hne.
  { intros Hid. apply Hforeign. rewrite Hplan, <- Hid. simpl. left. }
  split; [done|]. rewrite Hps. split; [|split].
  - by rewrite lookup_insert_ne, lookup_insert_eq.
  - by rewrite lookup_insert_eq.
  - intros key Hk1 Hk2. by rewrite !lookup_insert_ne.
Qed.

Lemma handleInsightCreate_blank now_id now_created w st :
  trim (insightDraft st) = [] →
  handleInsightCreate' now_id now_created w st = st.
Proof. intros Ht. unfold handleInsightCreate. by rewrite Ht. Qed.

Lemma handleInsightCreate_visible now_id now_created w st :
  trim (insightDraft st) ≠ [] →
  let entry :=
    {| Insight.id := lit "insight-" ++ number_to_string now_id;
       Insight.text := trim (insightDraft st);
       Insight.category := insightCategory st;
       Insight.createdAt := now_created |} in
  handleInsightCreate' now_id now_created w st
  = setActivity
      (λ prev, createActivity w (lit "Insight Captured") (Insight.text entry) :: prev)
      (setInsightDraft [] (setInsights (λ prev, entry :: prev) st)).
Proof.
  intros Ht. unfold handleInsightCreate.
  by destruct (trim (insightDraft st)).
Qed.

(** Every action leaves the insight list alone or puts one entry in front. *)
Lemma perform_insights st a st' :
  perform' st a = Some st' →
  insights st' = insights st ∨ ∃ entry, insights st' = entry :: insights st.
Proof.
  intros Hperf. destruct a; simpl in Hperf;
    try (injection Hperf as <-; by left).
  - destruct (AgentBlueprint.tools (blueprint st) !! i); [|done].
    apply handleToolRun_inv in Hperf as (nextHistory & _ & ->). by left.
  - destruct (AgentBlueprint.plan (blueprint st) !! i); [|done].
    case_bool_decide; [|done]. injection Hperf as <-. by left.
  - injection Hperf as <-. unfold handleInsightCreate.
    destruct (trim (insightDraft st)); [by left|right]. by eexists.
Qed.

(** C3. Submitting a draft that is empty or consists of white space only
    leaves the whole state unchanged; submitting a draft with a visible
    character puts exactly one new entry in front of the insight list; and
    since every action either leaves the insight list alone or puts one
    entry in front, the list is ordered newest first. *)
Theorem insight_submission_guard (now_id now_created : Z) (w : World) (st : State) :
  (Forall (λ c, is_white_space c = true) (insightDraft st) →
   handleInsightCreate' now_id now_created w st = st) ∧
  (Exists (λ c, is_white_space c = false) (insightDraft st) →
   ∃ entry,
     insights (handleInsightCreate' now_id now_created w st) = entry :: insights st) ∧
  (∀ a st', perform' st a = Some st' →
     insights st' = insights st ∨ ∃ entry, insights st' = entry :: insights st).
Proof.
  split; [|split].
  - intros Hblank. by apply handleInsightCreate_blank, trim_blank_iff.
  - intros Hvis. apply visible_not_blank in Hvis.
    rewrite handleInsightCreate_visible by done. by eexists.
  - apply perform_insights.
Qed.

(** C10. After a capture with a draft that has a visible character, the new
    entry in front of the insight list stores the trimmed draft: the draft
    is a blank prefix, the stored text and a blank suffix, and the stored
    text neither starts nor ends with white space. The draft field is reset
    to the empty string. *)
Theorem insight_capture_stores_trimmed
    (now_id now_created : Z) (w : World) (st : State) :
  Exists (λ c, is_white_space c = false) (insightDraft st) →
  let st' := handleInsightCreate' now_id now_created w st in
  let text := trim (insightDraft st) in
  insights st'
  = {| Insight.id := lit "insight-" ++ number_to_string now_id;
       Insight.text := text;
       Insight.category := insightCategory st;
       Insight.createdAt := now_created |} :: insights st ∧
  insightDraft st' = [] ∧
  (∃ pre post, insightDraft st = pre ++ text ++ post ∧
     Forall (λ c, is_white_space c = true) pre ∧
     Forall (λ c, is_white_space c = true) post) ∧
  (∀ c, head text = Some c → is_white_space c = false) ∧
  (∀ c, last text = Some c → is_white_space c = false).
Proof.
  intros Hvis st' text. apply visible_not_blank in Hvis.
  subst st'. rewrite handleInsightCreate_visible by done.
  split; [done|]. split; [done|]. apply trim_spec.
Qed.

(** *** Tool history *)

Lemma take_app_take {A} (n : nat) (l1 l2 : list A) :
  take n (l1 ++ take n l2) = take n (l1 ++ l2).
Proof.
  rewrite !take_app. f_equal.
  rewrite take_take. f_equal. lia.
Qed.

(** The updater on a tool id that is an own key or is not the name of a
    member of [Object.prototype]. *)
Lemma pushToolRun_stores (toolId : jstring) (run : ToolRun.t) (prev : ToolHistory) :
  isInherited toolId = false ∨ is_Some (prev !! toolId) →
  pushToolRun toolId run prev
  = Some (<[toolId := take 5 (run :: default [] (prev !! toolId))]> prev).
Proof.
  intros Hok. unfold pushToolRun, getMember, spreadWith, slice0.
  destruct (prev !! toolId) as [history|] eqn:Hown; [done|].
  destruct Hok as [->|[? [=]]]. done.
Qed.

(** The updater on the name of a member of [Object.prototype] that is not
    an own key. *)
Lemma pushToolRun_throws (toolId : jstring) (run : ToolRun.t) (prev : ToolHistory) :
  isInherited toolId = true → prev !! toolId = None →
  pushToolRun toolId run prev = None.
Proof.
  intros Hinh Hnone. unfold pushToolRun, getMember. by rewrite Hnone, Hinh.
Qed.

Lemma pushToolRun_inv
    (toolId : jstring) (run : ToolRun.t) (prev next : ToolHistory) :
  pushToolRun toolId run prev = Some next →
  (isInherited toolId = false ∨ is_Some (prev !! toolId)) ∧
  next = <[toolId := take 5 (run :: default [] (prev !! toolId))]> prev.
Proof.
  intros Hpush.
  assert (isInherited toolId = false ∨ is_Some (prev !! toolId)) as Hok.
  { destruct (prev !! toolId) eqn:Hown; [by right; eexists|].
    destruct (isInherited toolId) eqn:Hinh; [|by left].
    by rewrite pushToolRun_throws in Hpush. }
  split; [done|]. rewrite pushToolRun_stores in Hpush by done. congruence.
Qed.

(** Only a performed "Fire" writes the tool history, and it writes one key. *)
Lemma perform_toolHistory st a st' :
  perform' st a = Some st' →
  toolHistory st' = toolHistory st ∨
  ∃ toolId run,
    (isInherited toolId = false ∨ is_Some (toolHistory st !! toolId)) ∧
    toolHistory st'
    = <[toolId := take 5 (run :: default [] (toolHistory st !! toolId))]>
        (toolHistory st).
Proof.
  intros Hperf. destruct a; simpl in Hperf;
    try (injection Hperf as <-; by left).
  - destruct (AgentBlueprint.tools (blueprint st) !! i) as [tool|]; [|done].
    apply handleToolRun_inv in Hperf as (nextHistory & Hpush & ->).
    apply pushToolRun_inv in Hpush as [Hok ->].
    right. by eexists _, _.
  - destruct (AgentBlueprint.plan (blueprint st) !! i); [|done].
    case_bool_decide; [|done]. injection Hperf as <-. by left.
  - injection Hperf as <-. left. unfold handleInsightCreate.
    by destruct (trim (insightDraft st)).
Qed.

Lemma perform_wellKept st a st' :
  wellKept (toolHistory st) → perform' st a = Some st' →
  wellKept (toolHistory st').
Proof.
  intros Hkept Hperf.
  destruct (perform_toolHistory st a st' Hperf) as [-> | (t & run & Hok & ->)];
    [done|].
  intros toolId runs Hruns.
  destruct (decide (t = toolId)) as [->|Hne].
  - rewrite lookup_insert_eq in Hruns. injection Hruns as <-.
    split; [|split].
    + destruct Hok as [?|[old Hold]]; [done|]. by apply (Hkept _ _ Hold).
    + done.
    + cbn [take length]. rewrite length_take. lia.
  - rewrite lookup_insert_ne in Hruns by done. by apply Hkept.
Qed.

Lemma performAll_wellKept acts : ∀ st st',
  wellKept (toolHistory st) → performAll' st acts = Some st' →
  wellKept (toolHistory st').
Proof.
  induction acts as [|a acts IH]; intros st st' Hkept Hrun.
  - by injection Hrun as <-.
  - simpl in Hrun. destruct (perform' st a) as [st1|] eqn:Hperf; [|done].
    eapply IH; [|done]. by eapply perform_wellKept.
Qed.

Lemma invoke_lookup st c st' toolId :
  invoke createActivity runToolSimulation st c = Some st' →
  toolHistory st' !! toolId
  = if decide (inv_toolId c = toolId)
    then Some (take 5 (runToolSimulation (inv_world c) (inv_toolId c) (inv_query c)
                         :: default [] (toolHistory st !! toolId)))
    else toolHistory st !! toolId.
Proof.
  unfold invoke. intros Hinv.
  apply handleToolRun_inv in Hinv as (nextHistory & Hpush & ->).
  apply pushToolRun_inv in Hpush as [_ ->]. simpl.
  destruct (decide (inv_toolId c = toolId)) as [<-|Hne].
  - by rewrite lookup_insert_eq.
  - by rewrite lookup_insert_ne.
Qed.

Lemma invokeAll_history calls : ∀ st st' toolId,
  invokeAll createActivity runToolSimulation st calls = Some st' →
  toolHistory st' !! toolId
  = match runsFor runToolSimulation toolId calls with
    | [] => toolHistory st !! toolId
    | runs => Some (take 5 (reverse runs ++ default [] (toolHistory st !! toolId)))
    end.
Proof.
  induction calls as [|c calls IH]; intros st st' toolId Hall.
  - by injection Hall as <-.
  - simpl in Hall.
    destruct (invoke createActivity runToolSimulation st c) as [st1|] eqn:Hinv;
      [|done].
    rewrite (IH st1 st' toolId Hall).
    rewrite (invoke_lookup st c st1 toolId Hinv).
    unfold runsFor.
    destruct (decide (inv_toolId c = toolId)) as [Heq|Hne].
    + rewrite (filter_cons_True (λ c, inv_toolId c = toolId)) by done.
      rewrite fmap_cons.
      set (rest := (λ c, runToolSimulation (inv_world c) (inv_toolId c) (inv_query c))
                     <$> filter (λ c, inv_toolId c = toolId) calls).
      set (r := runToolSimulation (inv_world c) (inv_toolId c) (inv_query c)).
      destruct rest as [|r' rest']; cbn -[take reverse].
      * done.
      * f_equal. rewrite take_app_take.
        rewrite (reverse_cons _ r), <- app_assoc. done.
    + by rewrite (filter_cons_False (λ c, inv_toolId c = toolId)) by done.
Qed.

(** X16. On a tool id that is an own key of the history, or that is not the
    name of a member of [Object.prototype], an invocation puts the new run
    in front of the tool's history (the empty one, if there was none) and
    keeps the first five elements, leaving the other tools' histories
    alone; on the name of such a member that is not an own key the updater
    throws. Hence in every state reached from the initial state, by any
    actions, no key of the history names such a member and every stored
    history has between one and five runs. *)
Theorem toolHistory_capped_newest_first :
  (∀ w toolId query st,
     isInherited toolId = false ∨ is_Some (toolHistory st !! toolId) →
     ∃ st', handleToolRun' w toolId query st = Some st' ∧
       toolHistory st' !! toolId
       = Some (take 5 (runToolSimulation w toolId query
                         :: default [] (toolHistory st !! toolId))) ∧
       ∀ other, other ≠ toolId →
         toolHistory st' !! other = toolHistory st !! other) ∧
  (∀ w toolId query st,
     isInherited toolId = true → toolHistory st !! toolId = None →
     handleToolRun' w toolId query st = None) ∧
  (∀ w0 w1 acts st toolId runs,
     performAll' (initialState craftBlueprint createActivity w0 w1) acts = Some st →
     toolHistory st !! toolId = Some runs →
     isInherited toolId = false ∧ runs ≠ [] ∧ (length runs ≤ 5)%nat).
Proof.
  split; [|split].
  - intros w toolId query st Hok. unfold handleToolRun.
    rewrite pushToolRun_stores by done. eexists. split; [done|]. simpl.
    split; [by rewrite lookup_insert_eq|].
    intros other Hne. by rewrite lookup_insert_ne.
  - intros w toolId query st Hinh Hnone. unfold handleToolRun.
    by rewrite pushToolRun_throws.
  - intros w0 w1 acts st toolId runs Hrun.
    eapply performAll_wellKept; [|done].
    intros t rs. simpl. by rewrite lookup_empty.
Qed.

(** *** Activity log *)

Lemma perform_activity st a st' :
  perform' st a = Some st' →
  if logsActivity st a
  then ∃ entry, activity st' = entry :: activity st
  else activity st' = activity st.
Proof.
  intros Hperf. destruct a; simpl in *;
    try (by injection Hperf as <-);
    try (injection Hperf as <-; by eexists).
  - destruct (AgentBlueprint.tools (blueprint st) !! i); [|done].
    apply handleToolRun_inv in Hperf as (nextHistory & _ & ->). by eexists.
  - destruct (AgentBlueprint.plan (blueprint st) !! i); [|done].
    case_bool_decide; [|done]. injection Hperf as <-. by eexists.
  - injection Hperf as <-. unfold handleInsightCreate.
    destruct (trim (insightDraft st)); [done|by eexists].
Qed.

Lemma performAll_activity acts : ∀ st st',
  performAll' st acts = Some st' →
  ∃ new, activity st' = new ++ activity st ∧ (length new ≤ length acts)%nat.
Proof.
  induction acts as [|a acts IH]; intros st st' Hrun.
  - injection Hrun as <-. by exists [].
  - simpl in Hrun. destruct (perform' st a) as [st1|] eqn:Hperf; [|done].
    destruct (IH st1 st' Hrun) as (new & Hnew & Hlen).
    pose proof (perform_activity st a st1 Hperf) as Hstep.
    destruct (logsActivity st a).
    + destruct Hstep as [entry Hentry]. exists (new ++ [entry]). split.
      * by rewrite Hnew, Hentry, <- app_assoc.
      * rewrite length_app. simpl. lia.
    + exists new. split; [by rewrite Hnew, Hstep|simpl; lia].
Qed.

(** C7 (as the code has it). Regenerating the blueprint, advancing a step,
    running a tool and capturing an insight with a visible character each
    put exactly one new entry in front of the activity log; editing the
    configuration, the knowledge query, the insight draft or its category,
    and submitting a blank draft, leave the log as it is. The log only
    grows at the front: after any sequence of actions the earlier log is a
    suffix of the later one. *)
Theorem activity_log_grows_at_front :
  (∀ st a st', perform' st a = Some st' →
     if logsActivity st a
     then ∃ entry, activity st' = entry :: activity st
     else activity st' = activity st) ∧
  (∀ acts st st', performAll' st acts = Some st' →
     ∃ new, activity st' = new ++ activity st ∧ (length new ≤ length acts)%nat).
Proof.
  split.
  - apply perform_activity.
  - intros acts. apply performAll_activity.
Qed.
(** *** Mission configuration *)

(** C8 (as the code has it). Regeneration reads the configuration, from
    which it crafts the blueprint, and leaves it untouched; each form input
    replaces the record by a copy in which its own field is set and the
    other four are kept. *)
Theorem config_kept_by_generate_edited_fieldwise (st : State) :
  (∀ w, config (handleGenerate' w st) = config st) ∧
  (∀ v, config (changeGoal v st)
        = MissionConfig.mk v (MissionConfig.context (config st))
            (MissionConfig.timeframe (config st))
            (MissionConfig.intensity (config st))
            (MissionConfig.guardrails (config st))) ∧
  (∀ v, config (changeContext v st)
        = MissionConfig.mk (MissionConfig.goal (config st)) v
            (MissionConfig.timeframe (config st))
            (MissionConfig.intensity (config st))
            (MissionConfig.guardrails (config st))) ∧
  (∀ v, config (changeTimeframe v st)
        = MissionConfig.mk (MissionConfig.goal (config st))
            (MissionConfig.context (config st)) v
            (MissionConfig.intensity (config st))
            (MissionConfig.guardrails (config st))) ∧
  (∀ v, config (changeIntensity v st)
        = MissionConfig.mk (MissionConfig.goal (config st))
            (MissionConfig.context (config st))
            (MissionConfig.timeframe (config st)) v
            (MissionConfig.guardrails (config st))) ∧
  (∀ v, config (changeGuardrails v st)
        = MissionConfig.mk (MissionConfig.goal (config st))
            (MissionConfig.context (config st))
            (MissionConfig.timeframe (config st))
            (MissionConfig.intensity (config st)) v) ∧
  (∀ w, blueprint (handleGenerate' w st) = craftBlueprint w (config st)).
Proof. repeat split. Qed.

End Properties.
(** ** Knowledge search *)

Lemma startsWith_spec needle hay :
  startsWith needle hay = true ↔ ∃ post, hay = needle ++ post.
Proof.
  revert hay. induction needle as [|a needle IH]; intros hay; simpl.
  - split; [by exists hay|done].
  - destruct hay as [|b hay].
    + split; [done|]. by intros [post [=]].
    + rewrite andb_true_iff, N.eqb_eq, IH. split.
      * intros [-> [post ->]]. by exists post.
      * intros [post [= -> ->]]. split; [done|by exists post].
Qed.

(** [includes] is the substring test. *)
Lemma includes_spec needle hay :
  includes needle hay = true ↔ ∃ pre post, hay = pre ++ needle ++ post.
Proof.
  induction hay as [|b hay IH]; simpl.
  - rewrite orb_false_r, startsWith_spec. split.
    + intros [post Hpost]. by exists [], post.
    + intros (pre & post & Heq). symmetry in Heq.
      apply app_eq_nil in Heq as [-> Heq]. by exists post.
  - rewrite orb_true_iff, startsWith_spec, IH. split.
    + intros [[post Hpost] | (pre & post & ->)].
      * by exists [], post.
      * by exists (b :: pre), post.
    + intros (pre & post & Heq). destruct pre as [|c pre].
      * left. by exists post.
      * injection Heq as -> ->. right. by exists pre, post.
Qed.

Lemma includes_empty hay : includes [] hay = true.
Proof. by destruct hay. Qed.

(** C6. Searching for the empty query returns the whole catalog, in
    order; searching for a query that occurs in no item's title, summary
    or tags returns the empty list. *)
Theorem searchKnowledge_empty_query_and_no_match (catalog : list KnowledgeItem.t) :
  searchKnowledge catalog [] = catalog ∧
  ∀ query,
    (∀ item, item ∈ catalog →
       includes query (KnowledgeItem.title item) = false ∧
       includes query (KnowledgeItem.summary item) = false ∧
       Forall (λ tag, includes query tag = false) (KnowledgeItem.tags item)) →
    searchKnowledge catalog query = [].
Proof.
  unfold searchKnowledge. split.
  - induction catalog as [|item catalog IH]; [done|].
    simpl. unfold matchesQuery at 1. by rewrite includes_empty, IH.
  - intros query Hnone.
    induction catalog as [|item catalog IH]; [done|]. simpl.
    destruct (Hnone item) as (Ht & Hs & Htags); [left|].
    assert (existsb (includes query) (KnowledgeItem.tags item) = false) as Hex.
    { induction Htags as [|tag tags Htag _ IHt]; [done|]. simpl. by rewrite Htag. }
    unfold matchesQuery at 1. rewrite Ht, Hs, Hex. simpl.
    apply IH. intros other Hother. apply Hnone. by right.
Qed.

(** ** The handlers on concrete inputs *)

Lemma samplePlan_ids_distinct : NoDup (planIds samplePlan).
Proof. apply (bool_decide_unpack _). vm_compute. exact I. Defined.

(** After two advancements (and an edit) of the three-step sample plan,
    two steps are done and the third is the active, first not-done one. *)
Lemma advancements_keep_plan_invariant_witness :
  samplePerformAll sampleState sampleActs = Some sampleAdvanced ∧
  countStatus done samplePlan (planStates sampleAdvanced) = 2%nat ∧
  (countStatus active samplePlan (planStates sampleAdvanced) ≤ 1)%nat ∧
  activeStep sampleAdvanced = Some (sampleStep "scale" "Scale") ∧
  firstNotDone samplePlan (planStates sampleAdvanced)
  = Some (sampleStep "scale" "Scale").
Proof.
  assert (samplePerformAll sampleState sampleActs = Some sampleAdvanced) as Hrun
    by (vm_compute; reflexivity).
  split; [exact Hrun|].
  destruct (advancements_keep_plan_invariant
              sample_craftBlueprint sample_createActivity sample_runToolSimulation
              sampleState sampleAdvanced sampleActs)
    as (Hdone & Hactive & _ & Hstep).
  - exact samplePlan_ids_distinct.
  - reflexivity.
  - repeat constructor.
  - exact Hrun.
  - split; [exact Hdone|]. split; [exact Hactive|].
    assert (activeStep sampleAdvanced = Some (sampleStep "scale" "Scale")) as Hfocus
      by (vm_compute; reflexivity).
    split; [exact Hfocus|]. exact (Hstep _ Hfocus).
Defined.

(** C1, as stated, fails: the plan scan, build, build is seeded with step 0
    active and the others pending, yet after one advancement of the active
    step both later steps, which share an id, are active. *)
Lemma repeated_id_gives_two_active_steps :
  planStates repeatedState = seedPlanStates repeatedPlan ∧
  statusOf (planStates repeatedState) <$> repeatedPlan = [active; pending; pending] ∧
  ∃ st',
    performAll (craftWith repeatedPlan sampleTools) sample_createActivity
      sample_runToolSimulation repeatedState [ClickAdvance 0 10%Z] = Some st' ∧
    AgentBlueprint.plan (blueprint st') = repeatedPlan ∧
    statusOf (planStates st') <$> repeatedPlan = [done; active; active] ∧
    ¬ (countStatus active repeatedPlan (planStates st') ≤ 1)%nat.
Proof.
  split; [reflexivity|]. split; [vm_compute; reflexivity|].
  eexists. split; [reflexivity|]. split; [reflexivity|].
  split; [vm_compute; reflexivity|].
  intros Hle.
  assert (countStatus active repeatedPlan
            (planStates (handleAdvance sample_createActivity 10%Z
                           (sampleStep "scan" "Scan") repeatedState)) = 2%nat) as Hcount
    by (vm_compute; reflexivity).
  rewrite Hcount in Hle. lia.
Qed.


(** Six runs of the radar tool leave its five newest runs, newest first;
    the name of an inherited member is refused. *)
Lemma toolHistory_capped_newest_first_witness :
  (∃ st',
     handleToolRun sample_createActivity sample_runToolSimulation
       8%Z (lit "radar") (lit "q") sampleInvoked = Some st' ∧
     ToolRun.timestamp <$> default [] (toolHistory st' !! lit "radar")
     = [8%Z; 7%Z; 6%Z; 5%Z; 4%Z]) ∧
  handleToolRun sample_createActivity sample_runToolSimulation
    8%Z (lit "toString") (lit "q") sampleInvoked = None.
Proof.
  destruct (toolHistory_capped_newest_first
              sample_craftBlueprint sample_createActivity sample_runToolSimulation)
    as (Hstore & Hthrow & _).
  split.
  - destruct (Hstore 8%Z (lit "radar") (lit "q") sampleInvoked)
      as (st' & Hrun & Hhist & _); [by left|].
    exists st'. split; [exact Hrun|]. rewrite Hhist. vm_compute. reflexivity.
  - apply Hthrow; vm_compute; reflexivity.
Defined.

(** A draft of three spaces is ignored; a padded draft is captured. *)
Lemma insight_submission_guard_witness :
  handleInsightCreate sample_createActivity 100%Z 101%Z 5%Z
    (setInsightDraft (lit "   ") sampleState)
  = setInsightDraft (lit "   ") sampleState ∧
  ∃ entry,
    insights (handleInsightCreate sample_createActivity 100%Z 101%Z 5%Z
                (setInsightDraft (lit "  hold the line  ") sampleState))
    = entry :: insights sampleState.
Proof.
  split.
  - apply (insight_submission_guard
             sample_craftBlueprint sample_createActivity sample_runToolSimulation).
    vm_compute. repeat constructor.
  - apply (insight_submission_guard
             sample_craftBlueprint sample_createActivity sample_runToolSimulation
             100%Z 101%Z 5%Z (setInsightDraft (lit "  hold the line  ") sampleState)).
    vm_compute. do 2 right. left. reflexivity.
Defined.




(** No sample item mentions "zzz". *)
Lemma searchKnowledge_empty_query_and_no_match_witness :
  searchKnowledge sampleCatalog [] = sampleCatalog ∧
  searchKnowledge sampleCatalog (lit "zzz") = [].
Proof.
  destruct (searchKnowledge_empty_query_and_no_match sampleCatalog) as [Hall Hnone].
  split; [exact Hall|]. apply Hnone.
  intros item Hin. unfold sampleCatalog in Hin.
  apply elem_of_cons in Hin as [->|Hin];
    [|apply elem_of_cons in Hin as [->|Hin]; [|by apply elem_of_nil in Hin]];
    vm_compute; repeat constructor.
Defined.

(** C7, as stated, fails: editing the goal and typing a knowledge query are
    performed without any entry being put in front of the activity log. *)
Lemma activity_log_misses_edits_and_search :
  (∃ st',
     samplePerformAll sampleState [EditGoal (lit "Grow")] = Some st' ∧
     activity st' = activity sampleState ∧
     ¬ ∃ entry, activity st' = entry :: activity sampleState) ∧
  (∃ st',
     samplePerformAll sampleState [EditKnowledgeQuery (lit "ritual")] = Some st' ∧
     activity st' = activity sampleState ∧
     ¬ ∃ entry, activity st' = entry :: activity sampleState).
Proof.
  split; eexists; (split; [reflexivity|]); (split; [reflexivity|]);
    intros [entry Hentry]; apply (f_equal length) in Hentry; discriminate.
Qed.


(** A tool run is logged, an edit is not. *)
Lemma activity_log_grows_at_front_witness :
  (∃ st' entry,
     samplePerformAll sampleState [ClickFire 0 9%Z] = Some st' ∧
     activity st' = entry :: activity sampleState) ∧
  activity (changeGoal (lit "Grow") sampleState) = activity sampleState.
Proof.
  destruct (activity_log_grows_at_front
              sample_craftBlueprint sample_createActivity sample_runToolSimulation)
    as [Hstep _].
  split.
  - destruct (Hstep sampleState (ClickFire 0 9%Z) _ eq_refl) as [entry Hentry].
    eexists _, entry. split; [reflexivity|exact Hentry].
  - exact (Hstep sampleState (EditGoal (lit "Grow")) _ eq_refl).
Defined.

(** C8, as stated, fails: after the goal was edited, regeneration leaves
    the configuration record as it was rather than replacing it. *)
Lemma generate_leaves_config_untouched :
  let st := changeGoal (lit "Grow") sampleState in
  let st' := handleGenerate sample_craftBlueprint sample_createActivity 20%Z st in
  config st' = config st ∧ ¬ (config st' ≠ config st).
Proof. intros st st'. split; [reflexivity|]. intros Hne. by apply Hne. Qed.


(** Advancing a step outside the plan after two regular advancements marks
    its id done and makes the first step, which was done, active again. *)
Lemma advance_foreign_step_witness :
  let ps' := planStates (handleAdvance sample_createActivity 30%Z ghostStep
                           sampleAdvanced) in
  planStates sampleAdvanced !! lit "scan" = Some done ∧
  ps' !! lit "ghost" = Some done ∧
  ps' !! lit "scan" = Some active.
Proof.
  destruct (advance_foreign_step sample_createActivity 30%Z ghostStep
              (sampleStep "scan" "Scan")
              [sampleStep "build" "Build"; sampleStep "scale" "Scale"]
              sampleAdvanced)
    as (_ & Hdone & Hactive & _).
  - reflexivity.
  - apply (bool_decide_unpack _). vm_compute. exact I.
  - vm_compute. discriminate.
  - split; [vm_compute; reflexivity|]. split; [exact Hdone|exact Hactive].
Defined.

(** A padded draft is stored without its padding and the field is cleared. *)
Lemma insight_capture_stores_trimmed_witness :
  let st := setInsightDraft (lit "  hold the line  ") sampleState in
  let st' := handleInsightCreate sample_createActivity 100%Z 101%Z 5%Z st in
  Insight.text <$> insights st' = [lit "hold the line"] ∧
  insightDraft st' = [].
Proof.
  intros st st'.
  destruct (insight_capture_stores_trimmed sample_createActivity
              100%Z 101%Z 5%Z st)
    as (Hins & Hdraft & _).
  - vm_compute. do 2 right. left. reflexivity.
  - fold st' in Hins, Hdraft. split; [|exact Hdraft].
    rewrite Hins. vm_compute. reflexivity.
Defined.

(** Step ids are expected to be distinct (they are the React keys of the
    rendered steps): with a repeated first id the seeding loop overwrites
    the first step's status. *)
Example seedPlanStates_repeated_first_id :
  seedPlanStates
    [sampleStep "scan" "Scan"; sampleStep "build" "Build"; sampleStep "scan" "Again"]
  !! lit "scan" = Some pending.
Proof. vm_compute. reflexivity. Qed.

(** ** Further properties of the plan state machine *)

Section PlanProperties.

Context {World : Type}.
Variable craftBlueprint : World → MissionConfig.t → AgentBlueprint.t.
Variable createActivity : World → jstring → jstring → ActivityLogItem.t.
Variable runToolSimulation : World → jstring → jstring → ToolRun.t.

Local Abbreviation run1 :=
  (perform craftBlueprint createActivity runToolSimulation).
Local Abbreviation run :=
  (performAll craftBlueprint createActivity runToolSimulation).

Lemma run_cons a acts st :
  run st (a :: acts)
  = match run1 st a with Some st1 => run st1 acts | None => None end.
Proof. done. Qed.


Lemma advanceSteps_snoc ws : ∀ steps w step st,
  length ws = length steps →
  advanceSteps createActivity (ws ++ [w]) (steps ++ [step]) st
  = handleAdvance createActivity w step (advanceSteps createActivity ws steps st).
Proof.
  induction ws as [|w' ws IH]; intros [|step' steps] w step st Hlen;
    simpl in *; try done.
  apply IH. lia.
Qed.

(** After [handleAdvance] was called on the first [k] steps in order, the
    plan is in phase [k]. *)
Lemma advanceSteps_progressed (st : State) (ws : list World) : ∀ k,
  NoDup (planIds (AgentBlueprint.plan (blueprint st))) →
  PROTO ∉ planIds (AgentBlueprint.plan (blueprint st)) →
  progressed 0 (AgentBlueprint.plan (blueprint st)) (planStates st) →
  (k ≤ length ws)%nat → (k ≤ length (AgentBlueprint.plan (blueprint st)))%nat →
  let stk := advanceSteps createActivity (take k ws)
               (take k (AgentBlueprint.plan (blueprint st))) st in
  blueprint stk = blueprint st ∧
  progressed k (AgentBlueprint.plan (blueprint st)) (planStates stk).
Proof.
  intros k Hnd Hproto Hp0. induction k as [|k IH]; intros Hws Hplan; [done|].
  destruct IH as [Hb Hp]; [lia..|].
  destruct (lookup_lt_is_Some_2 ws k) as [w Hw]; [lia|].
  destruct (lookup_lt_is_Some_2 (AgentBlueprint.plan (blueprint st)) k)
    as [step Hstep]; [lia|].
  rewrite (take_S_r _ _ _ Hw), (take_S_r _ _ _ Hstep).
  rewrite advanceSteps_snoc by (rewrite !length_take; lia).
  simpl. split; [done|]. rewrite Hb.
  apply advancePlanStates_progressed; [done..|].
  intros Hid. apply Hproto. rewrite <- Hid.
  apply list_elem_of_fmap_2, list_elem_of_lookup. eauto.
Qed.

Lemma progressed_all_done plan ps :
  progressed (length plan) plan ps →
  Forall (λ step, statusOf ps step = done) plan.
Proof.
  intros Hp. pose proof (progressed_take _ _ _ Hp) as Hall.
  by rewrite take_ge in Hall.
Qed.

(** X1. A freshly seeded plan whose step ids are pairwise distinct and none
    of which is [__proto__] can be worked through in order: when
    [handleAdvance] has been called on the first k steps, step k is the
    active one, its button is enabled and it is the component's
    [activeStep]; after the call on the last step every step is done, none
    is active, [activeStep] is undefined and no step button can be
    clicked. *)
Theorem plan_can_be_completed (st : State) (ws : list World) :
  NoDup (planIds (AgentBlueprint.plan (blueprint st))) →
  PROTO ∉ planIds (AgentBlueprint.plan (blueprint st)) →
  planStates st = seedPlanStates (AgentBlueprint.plan (blueprint st)) →
  length ws = length (AgentBlueprint.plan (blueprint st)) →
  let plan := AgentBlueprint.plan (blueprint st) in
  (∀ k step, plan !! k = Some step →
     let stk := advanceSteps createActivity (take k ws) (take k plan) st in
     statusOf (planStates stk) step = active ∧
     buttonDisabled (planStates stk) step = false ∧
     activeStep stk = Some step) ∧
  let st' := advanceSteps createActivity ws plan st in
  blueprint st' = blueprint st ∧
  countStatus done plan (planStates st') = length plan ∧
  countStatus active plan (planStates st') = 0%nat ∧
  activeStep st' = None ∧
  ∀ i w, run1 st' (ClickAdvance i w) = None.
Proof.
  intros Hnd Hproto Hseed Hlen. cbv zeta.
  assert (progressed 0 (AgentBlueprint.plan (blueprint st)) (planStates st)) as Hp0.
  { rewrite Hseed. by apply seedPlanStates_progressed. }
  split.
  - intros k step Hk.
    assert (k < length (AgentBlueprint.plan (blueprint st)))%nat as Hlt
      by (by eapply lookup_lt_Some).
    destruct (advanceSteps_progressed st ws k Hnd Hproto Hp0) as [Hb Hp];
      [lia..|].
    assert (PlanStep.id step ≠ PROTO) as Hid.
    { intros Hid. apply Hproto. rewrite <- Hid.
      apply list_elem_of_fmap_2, list_elem_of_lookup. eauto. }
    assert (statusOf
              (planStates
                 (advanceSteps createActivity (take k ws)
                    (take k (AgentBlueprint.plan (blueprint st))) st)) step
            = active) as Hactive
      by (by apply (progressed_active_iff k _ _ k step Hp Hk)).
    split; [done|]. split.
    + unfold buttonDisabled. by rewrite bool_decide_eq_true_2.
    + unfold activeStep. rewrite Hb.
      by rewrite (progressed_activeStep_plain _ _ _ Hp Hproto).
  - destruct (advanceSteps_progressed st ws
                (length (AgentBlueprint.plan (blueprint st))) Hnd Hproto Hp0)
      as [Hb Hp]; [lia..|].
    rewrite (take_ge ws), (take_ge (AgentBlueprint.plan (blueprint st)))
      in Hb, Hp by lia.
    pose proof (progressed_all_done _ _ Hp) as Hall.
    split; [done|].
    split; [by apply progressed_countDone|].
    split; [|split].
    + unfold countStatus. rewrite filter_none; [done|].
      eapply Forall_impl; [exact Hall|]. simpl. intros step ->. done.
    + unfold activeStep. rewrite Hb.
      rewrite (progressed_activeStep_plain _ _ _ Hp Hproto).
      by apply lookup_ge_None.
    + intros i w. simpl. rewrite Hb.
      destruct (AgentBlueprint.plan (blueprint st) !! i) as [step|] eqn:Hi; [|done].
      rewrite bool_decide_eq_false_2; [done|].
      rewrite Forall_lookup in Hall. by rewrite (Hall i step Hi).
Qed.

Lemma advancePositions_from acts : ∀ k st st',
  NoDup (planIds (AgentBlueprint.plan (blueprint st))) →
  progressed k (AgentBlueprint.plan (blueprint st)) (planStates st) →
  Forall (λ a, isIgnite a = false) acts →
  run st acts = Some st' →
  advancePositions acts = seq k (countAdvances acts).
Proof.
  induction acts as [|a acts IH]; intros k st st' Hnd Hp Hign Hrun; [done|].
  apply Forall_cons in Hign as [Ha Hign]. simpl in Hrun.
  destruct (run1 st a) as [st1|] eqn:Hperf; [|done].
  destruct (perform_progressed craftBlueprint createActivity runToolSimulation
              k st a st1 Hnd Hp Ha Hperf) as [Hb Hp1].
  rewrite <- Hb in Hnd.
  specialize (IH _ st1 st' Hnd Hp1 Hign Hrun).
  destruct a; try exact IH.
  change (i :: advancePositions acts = k :: seq (S k) (countAdvances acts)).
  change (advancePositions acts = seq (S k) (countAdvances acts)) in IH.
  rewrite <- IH. f_equal. simpl in Hperf.
  destruct (AgentBlueprint.plan (blueprint st) !! i) as [step|] eqn:Hi; [|done].
  case_bool_decide as Hactive; [|done].
  eauto using progressed_active_position.
Qed.

(** X2. The order of advancement is forced: in every performed sequence of
    actions from a freshly seeded plan (distinct ids, no regeneration), the
    positions whose button was clicked are 0, 1, ..., N-1 in this order. *)
Theorem advancements_follow_plan_order (st st' : State) (acts : list Action) :
  NoDup (planIds (AgentBlueprint.plan (blueprint st))) →
  planStates st = seedPlanStates (AgentBlueprint.plan (blueprint st)) →
  Forall (λ a, isIgnite a = false) acts →
  run st acts = Some st' →
  advancePositions acts = seq 0 (countAdvances acts) ∧
  (countAdvances acts ≤ length (AgentBlueprint.plan (blueprint st)))%nat.
Proof.
  intros Hnd Hseed Hign Hrun.
  assert (progressed 0 (AgentBlueprint.plan (blueprint st)) (planStates st)) as Hp0.
  { rewrite Hseed. by apply seedPlanStates_progressed. }
  split; [by eapply advancePositions_from|].
  destruct (performAll_progressed craftBlueprint createActivity runToolSimulation
              acts 0 st st' Hnd Hp0 Hign Hrun) as [Hb [Hle _]].
  simpl in Hle. by rewrite Hb in Hle.
Qed.

(** X3. There is no way back: a step rendered as done stays done under every
    further sequence of actions that does not regenerate the blueprint. *)
Theorem done_steps_stay_done (st st1 st2 : State) (acts1 acts2 : list Action) :
  NoDup (planIds (AgentBlueprint.plan (blueprint st))) →
  planStates st = seedPlanStates (AgentBlueprint.plan (blueprint st)) →
  Forall (λ a, isIgnite a = false) acts1 →
  Forall (λ a, isIgnite a = false) acts2 →
  run st acts1 = Some st1 →
  run st1 acts2 = Some st2 →
  ∀ step, step ∈ AgentBlueprint.plan (blueprint st1) →
    statusOf (planStates st1) step = done →
    step ∈ AgentBlueprint.plan (blueprint st2) ∧
    statusOf (planStates st2) step = done.
Proof.
  intros Hnd Hseed Hign1 Hign2 Hrun1 Hrun2 step Hin Hdone.
  assert (progressed 0 (AgentBlueprint.plan (blueprint st)) (planStates st)) as Hp0.
  { rewrite Hseed. by apply seedPlanStates_progressed. }
  destruct (performAll_progressed craftBlueprint createActivity runToolSimulation
              acts1 0 st st1 Hnd Hp0 Hign1 Hrun1) as [Hb1 Hp1].
  rewrite <- Hb1 in Hnd.
  destruct (performAll_progressed craftBlueprint createActivity runToolSimulation
              acts2 _ st1 st2 Hnd Hp1 Hign2 Hrun2) as [Hb2 Hp2].
  rewrite Hb2. split; [done|].
  apply list_elem_of_lookup in Hin as [i Hi].
  apply (progressed_done_iff _ _ _ i step Hp1 Hi) in Hdone.
  rewrite Hb2 in Hp2.
  apply (progressed_done_iff _ _ _ i step Hp2 Hi). lia.
Qed.

Lemma run_progressed_with_ignite acts : ∀ k st st',
  (∀ w cfg, NoDup (planIds (AgentBlueprint.plan (craftBlueprint w cfg)))) →
  NoDup (planIds (AgentBlueprint.plan (blueprint st))) →
  progressed k (AgentBlueprint.plan (blueprint st)) (planStates st) →
  run st acts = Some st' →
  NoDup (planIds (AgentBlueprint.plan (blueprint st'))) ∧
  progressed
    (foldl (λ n a, if isIgnite a then 0%nat else if isAdvance a then S n else n)
           k acts)
    (AgentBlueprint.plan (blueprint st')) (planStates st').
Proof.
  induction acts as [|a acts IH]; intros k st st' Hall Hnd Hp Hrun.
  - by injection Hrun as <-.
  - simpl in Hrun. destruct (run1 st a) as [st1|] eqn:Hperf; [|done].
    simpl. destruct (isIgnite a) eqn:Ha.
    + destruct a; try discriminate. injection Hperf as <-.
      apply (IH 0%nat (handleGenerate craftBlueprint createActivity w st) st' Hall);
        [apply Hall| |done].
      simpl. apply seedPlanStates_progressed, Hall.
    + destruct (perform_progressed craftBlueprint createActivity
                  runToolSimulation k st a st1 Hnd Hp Ha Hperf) as [Hb Hp1].
      rewrite <- Hb in Hnd. by apply (IH _ st1 st' Hall).
Qed.


(** X4. In every state the page can reach from its initial state, by any
    actions including regenerations, the number of done steps is the number
    of advancements since the last regeneration, at most one step is
    active, and the component's [activeStep], if defined, is the first step
    that is not done; when no step of the plan has the id [__proto__],
    [activeStep] is exactly the first step that is not done. The crafted
    plans are taken to have pairwise distinct step ids. *)
Theorem reachable_plan_invariant (w0 w1 : World) (acts : list Action) (st : State) :
  (∀ w cfg, NoDup (planIds (AgentBlueprint.plan (craftBlueprint w cfg)))) →
  run (initialState craftBlueprint createActivity w0 w1) acts = Some st →
  let plan := AgentBlueprint.plan (blueprint st) in
  countStatus done plan (planStates st) = advancesSinceIgnite acts ∧
  (countStatus active plan (planStates st) ≤ 1)%nat ∧
  (∀ step, activeStep st = Some step →
           firstNotDone plan (planStates st) = Some step) ∧
  (PROTO ∉ planIds plan → activeStep st = firstNotDone plan (planStates st)) ∧
  (advancesSinceIgnite acts ≤ length plan)%nat.
Proof.
  intros Hall Hrun plan.
  destruct (run_progressed_with_ignite acts 0
              (initialState craftBlueprint createActivity w0 w1) st Hall)
    as [_ Hp];
    [apply Hall|apply seedPlanStates_progressed, Hall|done|].
  fold (advancesSinceIgnite acts) in Hp. fold plan in Hp.
  split; [by apply progressed_countDone|].
  split; [by eapply progressed_countActive|].
  split; [|split; [|by destruct Hp]].
  - intros step. unfold activeStep. fold plan.
    rewrite (progressed_activeStep_lookup _ _ _ Hp),
            (progressed_firstNotDone _ _ _ Hp).
    destruct (plan !! advancesSinceIgnite acts) as [item|]; [|done].
    by case_bool_decide.
  - intros Hproto. unfold activeStep. fold plan.
    by rewrite (progressed_activeStep_plain _ _ _ Hp Hproto),
               (progressed_firstNotDone _ _ _ Hp).
Qed.

End PlanProperties.

(** ** Further properties of the handlers *)

Lemma array_get_elem {A} (l : list A) (i : Z) (x : A) :
  array_get l i = Some x → x ∈ l.
Proof.
  unfold array_get. destruct (i <? 0)%Z; [done|].
  intros Hx. apply list_elem_of_lookup. eauto.
Qed.

Lemma dom_assignMember (key : jstring) (v : Status) (obj : PlanState) :
  PROTO ∉ dom obj →
  dom (assignMember key v obj) = ({[key]} ∖ {[PROTO]}) ∪ dom obj.
Proof.
  intros Hproto. unfold assignMember. case_bool_decide as Hkey.
  - subst key. apply not_elem_of_dom in Hproto. rewrite Hproto. set_solver.
  - rewrite dom_insert_L. set_solver.
Qed.

Lemma seedPlanStates_from_dom plan : ∀ index (next : PlanState),
  PROTO ∉ dom next →
  dom (seedPlanStates_from plan index next)
  = ((list_to_set (planIds plan) : gset (list N)) ∖ {[PROTO]}) ∪ dom next.
Proof.
  induction plan as [|step rest IH]; intros index next Hproto; simpl.
  - set_solver.
  - rewrite IH; rewrite dom_assignMember by done; set_solver.
Qed.

Lemma advancePlanStates_dom
    (plan : list PlanStep.t) (step : PlanStep.t) (prev : PlanState) :
  PlanStep.id step ∈ dom prev →
  dom prev = (list_to_set (planIds plan) : gset (list N)) ∖ {[PROTO]} →
  dom (advancePlanStates plan step prev) = dom prev.
Proof.
  intros Hstep Hdom.
  unfold advancePlanStates, spreadWith.
  assert (dom (<[PlanStep.id step := done]> prev) = dom prev) as Hnext
    by (rewrite dom_insert_L; set_solver).
  destruct (array_get plan _) as [nextStep|] eqn:Hnext_step; [|done].
  apply array_get_elem in Hnext_step.
  assert (PlanStep.id nextStep ∈ (list_to_set (planIds plan) : gset (list N)))
    as Hin by (rewrite elem_of_list_to_set; by apply list_elem_of_fmap_2).
  rewrite dom_assignMember; rewrite Hnext, Hdom; set_solver.
Qed.

Lemma seedPlanStates_from_later plan : ∀ index (next : PlanState) key,
  key ≠ PROTO →
  seedPlanStates_from plan (S index) next !! key
  = if decide (key ∈ planIds plan) then Some pending else next !! key.
Proof.
  induction plan as [|step rest IH]; intros index next key Hkey;
    cbn [seedPlanStates_from].
  - rewrite decide_False; [done|]. apply not_elem_of_nil.
  - rewrite IH by done.
    change (planIds (step :: rest)) with (PlanStep.id step :: planIds rest).
    destruct (decide (key ∈ planIds rest)) as [Hrest|Hrest].
    + rewrite decide_True; [done|]. apply elem_of_cons. by right.
    + destruct (decide (key = PlanStep.id step)) as [->|Hne].
      * rewrite lookup_assignMember_eq by done. rewrite decide_True; [done|].
        apply elem_of_cons. by left.
      * rewrite lookup_assignMember_ne by done.
        rewrite decide_False; [done|].
        intros Hin. apply elem_of_cons in Hin as [?|?]; done.
Qed.

(** X6. What the seeding loop stores, for any plan, distinct ids or not: the
    id [__proto__] gets no status; any other id of the plan is pending,
    except that the first step's id is active when it occurs nowhere else
    in the plan; an id outside the plan has no status. No id is ever seeded
    as done. *)
Theorem seedPlanStates_lookup (plan : list PlanStep.t) (key : jstring) :
  seedPlanStates plan !! key
  = if decide (key = PROTO) then None
    else match plan with
         | [] => None
         | first :: rest =>
             if decide (key ∈ planIds rest) then Some pending
             else if decide (key = PlanStep.id first) then Some active
             else None
         end.
Proof.
  destruct (decide (key = PROTO)) as [->|Hkey].
  - by apply seedPlanStates_from_proto.
  - destruct plan as [|first rest]; [done|].
    unfold seedPlanStates. cbn [seedPlanStates_from].
    rewrite seedPlanStates_from_later by done.
    destruct (decide (key ∈ planIds rest)); [done|].
    destruct (decide (key = PlanStep.id first)) as [->|Hne].
    + by rewrite lookup_assignMember_eq.
    + by rewrite lookup_assignMember_ne.
Qed.

Section HandlerProperties.

Context {World : Type}.
Variable craftBlueprint : World → MissionConfig.t → AgentBlueprint.t.
Variable createActivity : World → jstring → jstring → ActivityLogItem.t.
Variable runToolSimulation : World → jstring → jstring → ToolRun.t.

Local Abbreviation act :=
  (perform craftBlueprint createActivity runToolSimulation).
Local Abbreviation acts_run :=
  (performAll craftBlueprint createActivity runToolSimulation).
Local Abbreviation capture := (handleInsightCreate createActivity).


Lemma act_keys st a st' :
  dom (planStates st)
  = (list_to_set (planIds (AgentBlueprint.plan (blueprint st))) : gset (list N))
    ∖ {[PROTO]} →
  act st a = Some st' →
  dom (planStates st')
  = (list_to_set (planIds (AgentBlueprint.plan (blueprint st'))) : gset (list N))
    ∖ {[PROTO]}.
Proof.
  intros Hdom Hact. destruct a; cbn -[handleToolRun] in Hact;
    try (by injection Hact as <-).
  - injection Hact as <-. simpl. unfold seedPlanStates.
    rewrite seedPlanStates_from_dom; set_solver.
  - destruct (AgentBlueprint.tools (blueprint st) !! i); [|done].
    by apply handleToolRun_inv in Hact as (nextHistory & _ & ->).
  - destruct (AgentBlueprint.plan (blueprint st) !! i) as [step|] eqn:Hi; [|done].
    case_bool_decide as Hactive; [|done]. injection Hact as <-. simpl.
    rewrite advancePlanStates_dom; [done| |done].
    apply elem_of_dom. unfold statusOf in Hactive.
    destruct (planStates st !! PlanStep.id step); [by eexists|done].
  - injection Hact as <-. unfold handleInsightCreate.
    by destruct (trim (insightDraft st)).
Qed.

(** X5. In every state reached from the initial state, by any actions, the
    keys of the plan state are exactly the ids of the current plan's steps
    other than [__proto__], whether or not ids repeat: every rendered step
    with another id has a stored status (the [?? "pending"] fallback is
    never taken for it), a step with the id [__proto__] never has one, and
    no id of an earlier plan is kept. *)
Theorem planStates_keys_are_plan_ids (w0 w1 : World) (acts : list Action) (st : State) :
  acts_run (initialState craftBlueprint createActivity w0 w1) acts = Some st →
  dom (planStates st)
  = (list_to_set (planIds (AgentBlueprint.plan (blueprint st))) : gset (list N))
    ∖ {[PROTO]} ∧
  ∀ step, step ∈ AgentBlueprint.plan (blueprint st) →
    planStates st !! PlanStep.id step
    = if decide (PlanStep.id step = PROTO) then None
      else Some (statusOf (planStates st) step).
Proof.
  intros Hrun.
  assert (dom (planStates st)
          = (list_to_set (planIds (AgentBlueprint.plan (blueprint st)))
             : gset (list N)) ∖ {[PROTO]}) as Hdom.
  { revert Hrun.
    assert (dom (planStates (initialState craftBlueprint createActivity w0 w1))
            = (list_to_set (planIds (AgentBlueprint.plan
                 (blueprint (initialState craftBlueprint createActivity w0 w1))))
               : gset (list N)) ∖ {[PROTO]}) as Hinit.
    { simpl. unfold seedPlanStates. rewrite seedPlanStates_from_dom; set_solver. }
    revert Hinit. generalize (initialState craftBlueprint createActivity w0 w1).
    induction acts as [|a acts IH]; intros st0 Hinit Hrun.
    - by injection Hrun as <-.
    - simpl in Hrun. destruct (act st0 a) as [st1|] eqn:Hact; [|done].
      apply (IH st1); [by eapply act_keys|done]. }
  split; [done|]. intros step Hstep.
  destruct (decide (PlanStep.id step = PROTO)) as [Hproto|Hproto].
  - apply not_elem_of_dom. rewrite Hdom, Hproto. set_solver.
  - assert (PlanStep.id step ∈ dom (planStates st)) as Hin.
    { rewrite Hdom. apply elem_of_difference. split; [|set_solver].
      rewrite elem_of_list_to_set. by apply list_elem_of_fmap_2. }
    apply elem_of_dom in Hin as [s Hs]. unfold statusOf. by rewrite Hs.
Qed.

(** X7. A second click on "Capture Insight" right after a capture does nothing:
    the first capture clears the draft, so the second meets the blank-draft
    guard (and a blank first submission changes nothing either). *)
Theorem capture_twice_is_capture_once
    (t1 t2 t3 t4 : Z) (w w' : World) (st : State) :
  capture t3 t4 w' (capture t1 t2 w st) = capture t1 t2 w st.
Proof.
  destruct (trim (insightDraft st)) as [|c rest] eqn:Htrim.
  - rewrite (handleInsightCreate_blank createActivity t1 t2 w st Htrim).
    by apply handleInsightCreate_blank.
  - rewrite (handleInsightCreate_visible createActivity t1 t2 w st)
      by (by rewrite Htrim).
    by apply handleInsightCreate_blank.
Qed.

Lemma acts_run_frame {B} (f : State → B) (touches : Action → bool) :
  (∀ st a st', act st a = Some st' → touches a = false → f st' = f st) →
  ∀ acts st st',
    Forall (λ a, touches a = false) acts →
    acts_run st acts = Some st' → f st' = f st.
Proof.
  intros Hstep. induction acts as [|a acts IH]; intros st st' Hall Hrun.
  - by injection Hrun as <-.
  - apply Forall_cons in Hall as [Ha Hall]. simpl in Hrun.
    destruct (act st a) as [st1|] eqn:Hact; [|done].
    rewrite (IH st1 st' Hall Hrun). by eapply Hstep.
Qed.

Ltac frame_cases s a Hact :=
  destruct a; cbn -[handleToolRun] in *; try discriminate;
  try (by injection Hact as <-);
  try (destruct (AgentBlueprint.tools (blueprint s) !! _); [|done];
       by apply handleToolRun_inv in Hact as (? & _ & ->));
  try (destruct (AgentBlueprint.plan (blueprint s) !! _); [|done];
       destruct (bool_decide _); [|done]; by injection Hact as <-);
  try (injection Hact as <-; unfold handleInsightCreate;
       by destruct (trim (insightDraft s))).

(** X8. Which state cells a sequence of actions can touch. The blueprint is
    replaced only by "Ignite Agent" (editing the configuration does not
    recompute it); the configuration only by its five form inputs; the plan
    state only by "Ignite Agent" and a step's button; the tool history only
    by "Fire"; the insight list only by "Capture Insight". *)
Theorem cells_change_only_by_their_controls (acts : list Action) (st st' : State) :
  acts_run st acts = Some st' →
  (Forall (λ a, isIgnite a = false) acts → blueprint st' = blueprint st) ∧
  (Forall (λ a, isConfigEdit a = false) acts → config st' = config st) ∧
  (Forall (λ a, isIgnite a || isAdvance a = false) acts →
   planStates st' = planStates st) ∧
  (Forall (λ a, isFire a = false) acts → toolHistory st' = toolHistory st) ∧
  (Forall (λ a, isCapture a = false) acts → insights st' = insights st).
Proof.
  intros Hrun. repeat split; intros Hall.
  - eapply (acts_run_frame blueprint isIgnite); [|done..].
    intros s a s' Hact Ha. frame_cases s a Hact.
  - eapply (acts_run_frame config isConfigEdit); [|done..].
    intros s a s' Hact Ha. frame_cases s a Hact.
  - eapply (acts_run_frame planStates (λ a, isIgnite a || isAdvance a)); [|done..].
    intros s a s' Hact Ha. frame_cases s a Hact.
  - eapply (acts_run_frame toolHistory isFire); [|done..].
    intros s a s' Hact Ha. frame_cases s a Hact.
  - eapply (acts_run_frame insights isCapture); [|done..].
    intros s a s' Hact Ha. frame_cases s a Hact.
Qed.

End HandlerProperties.

(** ** Further properties of the tool console, the logs and the page *)

Section PageProperties.

Context {World : Type}.
Variable craftBlueprint : World → MissionConfig.t → AgentBlueprint.t.
Variable createActivity : World → jstring → jstring → ActivityLogItem.t.
Variable runToolSimulation : World → jstring → jstring → ToolRun.t.

Local Abbreviation do1 :=
  (perform craftBlueprint createActivity runToolSimulation).
Local Abbreviation doAll :=
  (performAll craftBlueprint createActivity runToolSimulation).


(** X9. After a performed sequence of invocations, a tool that had no
    history holds the runs produced for it, newest first, cut to five: as
    many runs as it was invoked, up to five, none exactly when it was never
    invoked, and otherwise its latest run first. *)
Theorem toolHistory_counts_invocations
    (st st' : State) (calls : list Invocation) (toolId : jstring) :
  toolHistory st !! toolId = None →
  invokeAll createActivity runToolSimulation st calls = Some st' →
  let runs := runsFor runToolSimulation toolId calls in
  toolHistory st' !! toolId
  = (if decide (runs = []) then None else Some (take 5 (reverse runs))) ∧
  length (default [] (toolHistory st' !! toolId)) = min 5 (length runs) ∧
  head (default [] (toolHistory st' !! toolId)) = last runs.
Proof.
  intros Hnone Hall runs.
  assert (toolHistory st' !! toolId
          = if decide (runs = []) then None else Some (take 5 (reverse runs)))
    as Hlookup.
  { rewrite (invokeAll_history createActivity runToolSimulation calls st st' toolId Hall).
    fold runs. rewrite Hnone. destruct runs as [|r runs']; [done|].
    rewrite decide_False by done. simpl. by rewrite app_nil_r. }
  split; [done|]. rewrite Hlookup.
  destruct (decide (runs = [])) as [->|Hruns]; [done|]. simpl. split.
  - by rewrite length_take, length_reverse.
  - rewrite <- head_reverse. by destruct (reverse runs).
Qed.

Lemma do1_counts st a st' :
  do1 st a = Some st' →
  (length (activity st') + length (insights st)
   = length (activity st) + length (insights st')
     + (if isIgnite a || isFire a || isAdvance a then 1 else 0))%nat.
Proof.
  intros Hact. destruct a; cbn -[handleToolRun] in *;
    try (injection Hact as <-; simpl; lia).
  - destruct (AgentBlueprint.tools (blueprint st) !! i); [|done].
    apply handleToolRun_inv in Hact as (nextHistory & _ & ->). simpl. lia.
  - destruct (AgentBlueprint.plan (blueprint st) !! i); [|done].
    case_bool_decide; [|done]. injection Hact as <-. simpl. lia.
  - injection Hact as <-. unfold handleInsightCreate.
    destruct (trim (insightDraft st)); simpl; lia.
Qed.

(** X10. The activity log accounts for the clicks and the insights: over every
    performed sequence of actions, the log grows by the number of clicks on
    "Ignite Agent", "Fire" and step buttons plus the number of insights
    added to the ledger, and by nothing else. *)
Theorem activity_accounts_for_clicks_and_insights
    (acts : list Action) (st st' : State) :
  doAll st acts = Some st' →
  (length (activity st') + length (insights st)
   = length (activity st) + length (insights st') + countLoggedClicks acts)%nat.
Proof.
  revert st. induction acts as [|a acts IH]; intros st Hrun.
  - injection Hrun as <-. unfold countLoggedClicks. simpl. lia.
  - simpl in Hrun. destruct (do1 st a) as [st1|] eqn:Hact; [|done].
    specialize (IH st1 Hrun). apply do1_counts in Hact.
    unfold countLoggedClicks in *. simpl.
    destruct (isIgnite a || isFire a || isAdvance a); simpl; lia.
Qed.

Lemma do1_trimmed st a st' :
  Forall (λ entry, trimmedText (Insight.text entry)) (insights st) →
  do1 st a = Some st' →
  Forall (λ entry, trimmedText (Insight.text entry)) (insights st').
Proof.
  intros Hinv Hact. destruct a; cbn -[handleToolRun] in *;
    try (by injection Hact as <-).
  - destruct (AgentBlueprint.tools (blueprint st) !! i); [|done].
    by apply handleToolRun_inv in Hact as (nextHistory & _ & ->).
  - destruct (AgentBlueprint.plan (blueprint st) !! i); [|done].
    case_bool_decide; [|done]. by injection Hact as <-.
  - injection Hact as <-. unfold handleInsightCreate.
    destruct (trim (insightDraft st)) as [|c rest] eqn:Htrim; [done|].
    simpl. constructor; [|done]. simpl. rewrite <- Htrim.
    destruct (trim_spec (insightDraft st)) as (_ & Hhead & Hlast).
    split; [by rewrite Htrim|]. by split.
Qed.

(** X11. The ledger never holds a blank or padded text: in every state reached
    from the initial state the text of each insight is non-empty and
    neither starts nor ends with white space. *)
Theorem ledger_texts_are_trimmed (w0 w1 : World) (acts : list Action) (st : State) :
  doAll (initialState craftBlueprint createActivity w0 w1) acts = Some st →
  Forall (λ entry, trimmedText (Insight.text entry)) (insights st).
Proof.
  assert (Forall (λ entry, trimmedText (Insight.text entry))
            (insights (initialState craftBlueprint createActivity w0 w1)))
    as Hinit by constructor.
  revert Hinit. generalize (initialState craftBlueprint createActivity w0 w1).
  induction acts as [|a acts IH]; intros st0 Hinit Hrun.
  - by injection Hrun as <-.
  - simpl in Hrun. destruct (do1 st0 a) as [st1|] eqn:Hact; [|done].
    apply (IH st1); [by eapply do1_trimmed|done].
Qed.


(** X12. An edited goal is used at once, without regeneration: when the next
    "Fire" is performed, the run in front of the tool's history is the one
    simulated for the edited goal, while the blueprint (and so the tool
    list) stays the one crafted before the edit; the next "Ignite Agent"
    crafts the blueprint from the edited configuration. *)
Theorem edited_goal_is_used_by_next_click
    (st st' : State) (v : jstring) (i : nat) (w : World) (tool : Tool.t) :
  AgentBlueprint.tools (blueprint st) !! i = Some tool →
  (doAll st [EditGoal v; ClickFire i w] = Some st' →
     head (default [] (toolHistory st' !! Tool.id tool))
     = Some (runToolSimulation w (Tool.id tool) v) ∧
     blueprint st' = blueprint st) ∧
  (doAll st [EditGoal v; ClickIgnite w] = Some st' →
     blueprint st'
     = craftBlueprint w
         (MissionConfig.mk v (MissionConfig.context (config st))
            (MissionConfig.timeframe (config st))
            (MissionConfig.intensity (config st))
            (MissionConfig.guardrails (config st)))).
Proof.
  intros Htool. split.
  - cbn -[handleToolRun]. rewrite Htool.
    destruct (handleToolRun _ _ _ _ _ _) as [st1|] eqn:Hrun; [|done].
    intros [= <-].
    apply handleToolRun_inv in Hrun as (nextHistory & Hpush & ->).
    apply pushToolRun_inv in Hpush as [_ ->]. simpl.
    by rewrite lookup_insert_eq.
  - by intros [= <-].
Qed.

(** X13. What the plan timeline shows in a reachable state, with N the number
    of advancements since the last regeneration: the first N steps read
    "Completed"; step N reads "Mark Complete" and is the only one whose
    button is enabled, unless its id is [__proto__], in which case it reads
    "Locked" like the later steps and no button is enabled; the header
    names step N as the current focus, or reads "All steps complete" when N
    is the length of the plan or step N has the id [__proto__]. The crafted
    plans are taken to have pairwise distinct step ids. *)
Theorem timeline_rendering (w0 w1 : World) (acts : list Action) (st : State) :
  (∀ w cfg, NoDup (planIds (AgentBlueprint.plan (craftBlueprint w cfg)))) →
  doAll (initialState craftBlueprint createActivity w0 w1) acts = Some st →
  let plan := AgentBlueprint.plan (blueprint st) in
  let N := advancesSinceIgnite acts in
  (∀ i step, plan !! i = Some step →
     buttonCaption (planStates st) step
     = (if (i <? N)%nat then lit "Completed"
        else if (i =? N)%nat && negb (bool_decide (PlanStep.id step = PROTO))
             then lit "Mark Complete" else lit "Locked") ∧
     buttonDisabled (planStates st) step
     = negb ((i =? N)%nat && negb (bool_decide (PlanStep.id step = PROTO)))) ∧
  focusLabel st
  = match plan !! N with
    | Some step =>
        if bool_decide (PlanStep.id step = PROTO) then lit "All steps complete"
        else lit "Current focus: " ++ PlanStep.title step
    | None => lit "All steps complete"
    end ∧
  (plan !! N = None ↔ N = length plan).
Proof.
  intros Hall Hrun plan N.
  destruct (run_progressed_with_ignite craftBlueprint createActivity
              runToolSimulation acts 0
              (initialState craftBlueprint createActivity w0 w1) st Hall)
    as [_ Hp];
    [apply Hall|apply seedPlanStates_progressed, Hall|done|].
  fold (advancesSinceIgnite acts) in Hp. fold plan N in Hp.
  split; [|split].
  - intros i step Hi. unfold buttonCaption, buttonDisabled.
    pose proof (progressed_statusOf N plan _ i step Hp Hi) as Hstatus.
    destruct Hp as [_ Hp]. specialize (Hp i step Hi).
    rewrite Hstatus. unfold phase.
    destruct (bool_decide (PlanStep.id step = PROTO)) eqn:Hproto.
    + destruct Hp as [_ Hle].
      destruct (Nat.ltb_spec i N), (Nat.eqb_spec i N);
        try lia; split; reflexivity.
    + destruct (Nat.ltb_spec i N), (Nat.eqb_spec i N);
        try lia; split; reflexivity.
  - unfold focusLabel, activeStep. fold plan.
    rewrite (progressed_activeStep_lookup _ _ _ Hp).
    destruct (plan !! N) as [step|]; [|done]. by case_bool_decide.
  - destruct Hp as [Hle _]. rewrite lookup_ge_None. lia.
Qed.

End PageProperties.

(** ** Insight ids *)

Lemma lit_inj s1 s2 : lit s1 = lit s2 → s1 = s2.
Proof.
  unfold lit. intros Heq.
  rewrite <- (string_of_list_ascii_of_string s1),
          <- (string_of_list_ascii_of_string s2).
  f_equal. revert Heq.
  generalize (list_ascii_of_string s1) (list_ascii_of_string s2).
  induction l as [|a l IH]; intros [|b l']; simpl; try done.
  intros [= Hab Hl]. f_equal; [|by apply IH].
  by rewrite <- (ascii_N_embedding a), <- (ascii_N_embedding b), Hab.
Qed.

Lemma number_to_string_inj a b :
  number_to_string a = number_to_string b → a = b.
Proof.
  unfold number_to_string. intros Heq. apply lit_inj in Heq.
  assert (∀ z, NilZero.int_of_string (NilZero.string_of_int (Z.to_int z))
               = Some (Z.to_int z)) as Hparse.
  { intros z. apply NilZero.isi; destruct z; simpl; try done;
      intros [= Hnil]; by apply Unsigned.to_uint_nonnil in Hnil. }
  apply to_int_inj.
  pose proof (Hparse a) as Ha. rewrite Heq, Hparse in Ha. congruence.
Qed.

Section InsightIds.

Context {World : Type}.
Variable createActivity : World → jstring → jstring → ActivityLogItem.t.

(** X14. The id given to a captured insight is determined by the clock reading
    alone: two captures store entries with the same id exactly when their
    first [Date.now()] readings coincide, whatever the drafts. *)
Theorem captured_ids_agree_iff_clock_agrees
    (t c t' c' : Z) (w w' : World) (st1 st2 : State) (e1 e2 : Insight.t) :
  Exists (λ u, is_white_space u = false) (insightDraft st1) →
  Exists (λ u, is_white_space u = false) (insightDraft st2) →
  head (insights (handleInsightCreate createActivity t c w st1)) = Some e1 →
  head (insights (handleInsightCreate createActivity t' c' w' st2)) = Some e2 →
  (Insight.id e1 = Insight.id e2 ↔ t = t').
Proof.
  intros Hv1 Hv2 He1 He2.
  apply visible_not_blank in Hv1, Hv2.
  rewrite handleInsightCreate_visible in He1, He2 by done.
  assert (Insight.id e1 = lit "insight-" ++ number_to_string t) as ->
    by (by injection He1 as <-).
  assert (Insight.id e2 = lit "insight-" ++ number_to_string t') as ->
    by (by injection He2 as <-).
  split; [|by intros ->].
  intros Heq. apply app_inv_head in Heq. by apply number_to_string_inj.
Qed.

End InsightIds.


(** ** The further properties on concrete inputs *)

Lemma sample_craftBlueprint_ids_distinct :
  ∀ w cfg, NoDup (planIds (AgentBlueprint.plan (sample_craftBlueprint w cfg))).
Proof. intros w cfg. exact samplePlan_ids_distinct. Defined.

Lemma sampleTrace_runs : samplePerformAll sampleState sampleTrace = Some sampleReached.
Proof. vm_compute. reflexivity. Defined.

Lemma samplePlan_has_no_proto : PROTO ∉ planIds samplePlan.
Proof. apply (bool_decide_unpack _). vm_compute. exact I. Defined.

Lemma plan_can_be_completed_witness :
  statusOf
    (planStates (advanceSteps sample_createActivity [10%Z] [sampleStep "scan" "Scan"]
                   sampleState))
    (sampleStep "build" "Build") = active ∧
  countStatus done samplePlan (planStates sampleCompleted) = 3%nat ∧
  countStatus active samplePlan (planStates sampleCompleted) = 0%nat ∧
  activeStep sampleCompleted = None.
Proof.
  destruct (plan_can_be_completed
              sample_craftBlueprint sample_createActivity sample_runToolSimulation
              sampleState sampleWorlds samplePlan_ids_distinct
              samplePlan_has_no_proto eq_refl eq_refl)
    as (Hturn & _ & Hdone & Hactive & Hstep & _).
  split; [exact (proj1 (Hturn 1%nat (sampleStep "build" "Build") eq_refl))|].
  split; [exact Hdone|]. split; [exact Hactive|exact Hstep].
Defined.

Lemma advancements_follow_plan_order_witness :
  advancePositions sampleActs = [0%nat; 1%nat].
Proof.
  destruct (advancements_follow_plan_order
              sample_craftBlueprint sample_createActivity sample_runToolSimulation
              sampleState sampleAdvanced sampleActs) as [Hpos _].
  - exact samplePlan_ids_distinct.
  - reflexivity.
  - repeat constructor.
  - vm_compute. reflexivity.
  - exact Hpos.
Defined.

Lemma done_steps_stay_done_witness :
  let later : list (@Action Z) := [ClickAdvance 2 12%Z; EditContext (lit "ctx")] in
  let st2 := default sampleState (samplePerformAll sampleAdvanced later) in
  statusOf (planStates sampleAdvanced) (sampleStep "scan" "Scan") = done ∧
  statusOf (planStates st2) (sampleStep "scan" "Scan") = done.
Proof.
  intros later st2. split; [vm_compute; reflexivity|].
  destruct (done_steps_stay_done
              sample_craftBlueprint sample_createActivity sample_runToolSimulation
              sampleState sampleAdvanced st2 sampleActs later)
    with (step := sampleStep "scan" "Scan") as [_ Hdone].
  - exact samplePlan_ids_distinct.
  - reflexivity.
  - repeat constructor.
  - repeat constructor.
  - vm_compute. reflexivity.
  - vm_compute. reflexivity.
  - apply list_elem_of_lookup. exists 0%nat. vm_compute. reflexivity.
  - vm_compute. reflexivity.
  - exact Hdone.
Defined.

Lemma reachable_plan_invariant_witness :
  countStatus done samplePlan (planStates sampleReached) = 1%nat ∧
  (countStatus active samplePlan (planStates sampleReached) ≤ 1)%nat ∧
  activeStep sampleReached = Some (sampleStep "build" "Build").
Proof.
  destruct (reachable_plan_invariant
              sample_craftBlueprint sample_createActivity sample_runToolSimulation
              0%Z 1%Z sampleTrace sampleReached
              sample_craftBlueprint_ids_distinct sampleTrace_runs)
    as (Hdone & Hactive & _ & Hfocus & _).
  split; [exact Hdone|]. split; [exact Hactive|].
  rewrite (Hfocus samplePlan_has_no_proto). vm_compute. reflexivity.
Defined.

Lemma planStates_keys_are_plan_ids_witness :
  planStates sampleReached !! lit "build" = Some active ∧
  planStates sampleReached !! lit "ghost" = None.
Proof.
  destruct (planStates_keys_are_plan_ids
              sample_craftBlueprint sample_createActivity sample_runToolSimulation
              0%Z 1%Z sampleTrace sampleReached sampleTrace_runs)
    as [Hdom Hstored].
  split.
  - change (lit "build") with (PlanStep.id (sampleStep "build" "Build")).
    rewrite (Hstored (sampleStep "build" "Build")).
    + vm_compute. reflexivity.
    + apply list_elem_of_lookup. exists 1%nat. vm_compute. reflexivity.
  - apply not_elem_of_dom. rewrite Hdom.
    apply (bool_decide_unpack _). vm_compute. exact I.
Defined.

Lemma cells_change_only_by_their_controls_witness :
  let acts : list (@Action Z) :=
    [EditGoal (lit "Grow"); EditKnowledgeQuery (lit "ritual")] in
  let st' := default sampleState (samplePerformAll sampleState acts) in
  blueprint st' = blueprint sampleState ∧
  planStates st' = planStates sampleState ∧
  toolHistory st' = toolHistory sampleState.
Proof.
  intros acts st'.
  destruct (cells_change_only_by_their_controls
              sample_craftBlueprint sample_createActivity sample_runToolSimulation
              acts sampleState st' eq_refl)
    as (Hblueprint & _ & Hplan & Htools & _).
  split; [apply Hblueprint; repeat constructor|].
  split; [apply Hplan; repeat constructor|apply Htools; repeat constructor].
Defined.

Lemma toolHistory_counts_invocations_witness :
  invokeAll sample_createActivity sample_runToolSimulation sampleState sampleCalls
  = Some sampleInvoked ∧
  ToolRun.timestamp <$> default [] (toolHistory sampleInvoked !! lit "radar")
  = [7%Z; 6%Z; 5%Z; 4%Z; 2%Z] ∧
  length (default [] (toolHistory sampleInvoked !! lit "forge")) = 1%nat ∧
  toolHistory sampleInvoked !! lit "scope" = None.
Proof.
  assert (invokeAll sample_createActivity sample_runToolSimulation
            sampleState sampleCalls = Some sampleInvoked) as Hall
    by (vm_compute; reflexivity).
  destruct (toolHistory_counts_invocations
              sample_createActivity sample_runToolSimulation
              sampleState sampleInvoked sampleCalls (lit "radar") eq_refl Hall)
    as (Hradar & _ & _).
  destruct (toolHistory_counts_invocations
              sample_createActivity sample_runToolSimulation
              sampleState sampleInvoked sampleCalls (lit "forge") eq_refl Hall)
    as (_ & Hforge & _).
  destruct (toolHistory_counts_invocations
              sample_createActivity sample_runToolSimulation
              sampleState sampleInvoked sampleCalls (lit "scope") eq_refl Hall)
    as (Hscope & _ & _).
  split; [exact Hall|].
  split; [rewrite Hradar; vm_compute; reflexivity|].
  split; [exact Hforge|exact Hscope].
Defined.

Lemma activity_accounts_for_clicks_and_insights_witness :
  length (activity sampleReached) = 6%nat ∧
  length (insights sampleReached) = 1%nat ∧
  countLoggedClicks sampleTrace = 4%nat.
Proof.
  pose proof (activity_accounts_for_clicks_and_insights
                sample_craftBlueprint sample_createActivity sample_runToolSimulation
                sampleTrace sampleState sampleReached sampleTrace_runs) as Hcount.
  assert (length (insights sampleReached) = 1%nat) as Hins
    by (vm_compute; reflexivity).
  assert (countLoggedClicks sampleTrace = 4%nat) as Hclicks
    by (vm_compute; reflexivity).
  rewrite Hins, Hclicks in Hcount. simpl in Hcount.
  split; [lia|]. split; [exact Hins|exact Hclicks].
Defined.

Lemma ledger_texts_are_trimmed_witness :
  Insight.text <$> insights sampleReached = [lit "hold the line"] ∧
  Forall (λ entry, trimmedText (Insight.text entry)) (insights sampleReached).
Proof.
  split; [vm_compute; reflexivity|].
  exact (ledger_texts_are_trimmed
           sample_craftBlueprint sample_createActivity sample_runToolSimulation
           0%Z 1%Z sampleTrace sampleReached sampleTrace_runs).
Defined.

Lemma edited_goal_is_used_by_next_click_witness :
  ∃ st',
    samplePerformAll sampleState [EditGoal (lit "Grow"); ClickFire 0 9%Z] = Some st' ∧
    ToolRun.insight <$> head (default [] (toolHistory st' !! lit "radar"))
    = Some (lit "Grow") ∧
    blueprint st' = blueprint sampleState.
Proof.
  eexists. split; [vm_compute; reflexivity|].
  match goal with
  | |- context [toolHistory ?s] =>
      destruct (edited_goal_is_used_by_next_click
                  sample_craftBlueprint sample_createActivity sample_runToolSimulation
                  sampleState s (lit "Grow") 0 9%Z
                  (Tool.mk (lit "radar") (lit "Radar") (lit "Signal radar")
                     (lit "scan the market")) eq_refl)
        as [Hfire _]
  end.
  destruct Hfire as [Hhead Hblueprint]; [vm_compute; reflexivity|].
  split; [|exact Hblueprint].
  change (Tool.id _) with (lit "radar") in Hhead. by rewrite Hhead.
Defined.

Lemma timeline_rendering_witness :
  focusLabel sampleReached = lit "Current focus: Build" ∧
  buttonCaption (planStates sampleReached) (sampleStep "scan" "Scan")
  = lit "Completed" ∧
  buttonCaption (planStates sampleReached) (sampleStep "scale" "Scale")
  = lit "Locked" ∧
  buttonDisabled (planStates sampleReached) (sampleStep "build" "Build") = false.
Proof.
  destruct (timeline_rendering
              sample_craftBlueprint sample_createActivity sample_runToolSimulation
              0%Z 1%Z sampleTrace sampleReached
              sample_craftBlueprint_ids_distinct sampleTrace_runs)
    as (Hbuttons & Hfocus & _).
  split; [rewrite Hfocus; vm_compute; reflexivity|].
  split; [exact (proj1 (Hbuttons 0%nat (sampleStep "scan" "Scan") eq_refl))|].
  split; [exact (proj1 (Hbuttons 2%nat (sampleStep "scale" "Scale") eq_refl))|].
  exact (proj2 (Hbuttons 1%nat (sampleStep "build" "Build") eq_refl)).
Defined.

Lemma captured_ids_agree_iff_clock_agrees_witness :
  let st := setInsightDraft (lit "note") sampleState in
  let entry (t : Z) :=
    Insight.mk (lit "insight-" ++ number_to_string t) (lit "note") signal 7%Z in
  Insight.id (entry 100%Z) ≠ Insight.id (entry 101%Z).
Proof.
  intros st entry Heq.
  apply (captured_ids_agree_iff_clock_agrees sample_createActivity
           100%Z 7%Z 101%Z 7%Z 1%Z 2%Z st st (entry 100%Z) (entry 101%Z)) in Heq.
  - discriminate Heq.
  - vm_compute. left. reflexivity.
  - vm_compute. left. reflexivity.
  - reflexivity.
  - reflexivity.
Defined.
